(** * Conway's Game of Life canvas demo (components/render-homepage-code.tsx)

    A shallow embedding of the [ConwayGame] component: the JavaScript heap
    of array objects, the closure constants [cellSize], [width], [height],
    the functions [countAliveNeighbors], [update], [draw] and
    [updateCanvasSize], and the effect body that mounts the component.
    Module [Bounce] embeds the bouncing numbers of
    components/three-rules-bounce.tsx in the same way: [updateSize],
    [updatePositions], [draw], [handleResize] and the interval callback. *)

From stdpp Require Import base option list numbers gmap strings pretty.
From Stdlib Require Import ZArith Lia Ascii.

Open Scope Z_scope.

(** ** The store of array objects

    A JavaScript array is an object on the heap; a [number[][]] is an
    array of references to row arrays.  Two grids, or two rows of one
    grid, may be the same object, so the store is explicit. *)

Definition loc := positive.

Inductive val :=
  | VNum (n : Z)
  | VRef (l : loc)
  | VNull.

Abbreviation heap := (gmap loc (list val)).

(** Computations that allocate or write: a state monad over the store in
    which [None] stands for leaving the world of dense numeric arrays (an
    index outside an array, where JavaScript would throw a [TypeError] or
    produce [undefined], or a [RangeError] of [Array(n)]). *)
Definition M (A : Type) : Type := heap → option (A * heap).

Definition ret {A} (a : A) : M A := λ h, Some (a, h).

Definition bind {A B} (m : M A) (k : A → M B) : M B :=
  λ h, match m h with
       | Some (a, h') => k a h'
       | None => None
       end.

Definition fail {A} : M A := λ _, None.

(** A computation that only reads the store. *)
Definition reading {A} (r : heap → option A) : M A :=
  λ h, match r h with
       | Some a => Some (a, h)
       | None => None
       end.

Notation "'do' x <- m ; k" := (bind m (λ x, k))
  (at level 10, x name, m at level 100, k at level 200).

(** [for (const x of xs) body(x)] *)
Fixpoint for_each {A} (xs : list A) (body : A → M unit) : M unit :=
  match xs with
  | [] => ret tt
  | x :: xs' => do _ <- body x; for_each xs' body
  end.

(** [xs.map(f)] where the callback has effects: results in order. *)
Fixpoint map_each {A B} (xs : list A) (f : A → M B) : M (list B) :=
  match xs with
  | [] => ret []
  | x :: xs' => do b <- f x; do bs <- map_each xs' f; ret (b :: bs)
  end.

(** Allocation of a new array object at an unused location. *)
Definition alloc (arr : list val) : M loc :=
  λ h, let l := fresh (dom h) in Some (l, <[l := arr]> h).

(** [Array(n)]: a [RangeError] for a negative length. The slots are
    filled by the [fill] that follows in every use in this file. *)
Definition Array_fill (n : Z) (v : val) : M loc :=
  if decide (0 ≤ n) then alloc (replicate (Z.to_nat n) v) else fail.

(** [a[i]] for an array object [a]; [None] outside [0 .. a.length), where
    JavaScript yields [undefined]. *)
Definition index (h : heap) (a : loc) (i : Z) : option val :=
  if decide (0 ≤ i) then arr ← h !! a; arr !! Z.to_nat i else None.

(** [g[x][y]] read as a number. *)
Definition get2 (g : loc) (x y : Z) (h : heap) : option Z :=
  r ← index h g x;
  match r with
  | VRef row =>
      v ← index h row y;
      match v with
      | VNum n => Some n
      | _ => None
      end
  | _ => None
  end.

(** [g[x][y] = n] for [y] inside the row. A write past the end of the
    row, which JavaScript answers by growing the array, is outside the
    model ([None]); [update] writes only inside the rows it allocated. *)
Definition set2 (g : loc) (x y : Z) (n : Z) : M unit :=
  λ h, r ← index h g x;
       match r with
       | VRef row =>
           arr ← h !! row;
           if decide (0 ≤ y < Z.of_nat (length arr))
           then Some (tt, <[row := <[Z.to_nat y := VNum n]> arr]> h)
           else None
       | _ => None
       end.

(** ** The grid as a value

    What a reader of a [number[][]] sees: the rows and their cells. *)
Abbreviation Grid := (list (list Z)).

Definition as_num (v : val) : option Z :=
  match v with
  | VNum n => Some n
  | _ => None
  end.

Definition read_row (h : heap) (v : val) : option (list Z) :=
  match v with
  | VRef row => arr ← h !! row; mapM as_num arr
  | _ => None
  end.

Definition snapshot (h : heap) (g : loc) : option Grid :=
  arr ← h !! g; mapM (read_row h) arr.

Definition cell (G : Grid) (x y : Z) : option Z :=
  if decide (0 ≤ x ∧ 0 ≤ y) then row ← G !! Z.to_nat x; row !! Z.to_nat y
  else None.

Definition shape (height width : Z) (G : Grid) : Prop :=
  Z.of_nat (length G) = height ∧
  Forall (λ row, Z.of_nat (length row) = width) G.

Definition binary (G : Grid) : Prop :=
  Forall (Forall (λ c, c = 0 ∨ c = 1)) G.

(** ** Game logic *)

Definition cellSize : Z := 5.

(** [Math.ceil(n / cellSize)] for an integer [n]. The quotient of a
    canvas dimension by 5 is computed in double precision, whose error
    is far below the distance 1/5 of a non-integral quotient to the next
    integer, so the ceiling is the exact one. *)
Definition ceil_div (n d : Z) : Z := - ((- n) / d).

Section Game.
(** The constants [height] and [width] of the effect's closure. *)
Variables height width : Z.

Definition offsets : list Z := [-1; 0; 1].

(** The body of the inner loop of [countAliveNeighbors]. *)
Definition count_step (grid : loc) (x y : Z) (h : heap) (i : Z)
    (count : option Z) (j : Z) : option Z :=
  c ← count;
  if bool_decide (i = 0) && bool_decide (j = 0) then Some c
  else if bool_decide (0 ≤ x + i) && bool_decide (x + i < height)
          && bool_decide (0 ≤ y + j) && bool_decide (y + j < width)
  then v ← get2 grid (x + i) (y + j) h; Some (c + v)
  else Some c.

Definition countAliveNeighbors (grid : loc) (x y : Z) (h : heap) : option Z :=
  foldl (λ count i, foldl (count_step grid x y h i) count offsets)
        (Some 0) offsets.

(** The value [update] stores in [newGrid[i][j]], from [grid[i][j]] and
    the neighbour count. *)
Definition next_state (c neighbors : Z) : Z :=
  if bool_decide (c = 0) && bool_decide (neighbors = 3) then 1
  else if bool_decide (c = 1)
          && (bool_decide (neighbors < 2) || bool_decide (3 < neighbors))
  then 0
  else c.

(** [Array(height).fill(null).map(() => Array(width).fill(0))] *)
Definition new_grid : M loc :=
  do tmp <- Array_fill height VNull;
  do rows <- map_each (seqZ 0 height) (λ _, Array_fill width (VNum 0));
  alloc (VRef <$> rows).

Definition update (grid : loc) : M loc :=
  do newGrid <- new_grid;
  do _ <- for_each (seqZ 0 height) (λ i,
            for_each (seqZ 0 width) (λ j,
              do neighbors <- reading (countAliveNeighbors grid i j);
              do c <- reading (get2 grid i j);
              set2 newGrid i j (next_state c neighbors)));
  ret newGrid.

End Game.

(** Allocation of a grid with given contents, rows first. *)
Definition alloc_grid (G : Grid) : M loc :=
  do rows <- map_each G (λ row, alloc (VNum <$> row));
  alloc (VRef <$> rows).

(** ** The component: canvas, context, timer tick and resize listener *)

(** Calls received by the 2D context, in order. *)
Inductive cmd :=
  | ClearRect (x y w h : Z)
  | SetFillStyle (s : string)
  | FillRect (x y w h : Z).

Record canvas_t := { cv_width : Z; cv_height : Z }.

(** The variables of the effect's closure. [st_ctx] carries the calls
    made on the context so far. *)
Record state := {
  st_canvas : option canvas_t;
  st_ctx : option (list cmd);
  st_width : Z;
  st_height : Z;
  st_grid : loc;
  st_mem : heap
}.

(** The body of [draw]'s inner loop. *)
Definition draw_cell (grid : loc) (h : heap) (i : Z)
    (log : option (list cmd)) (j : Z) : option (list cmd) :=
  l ← log;
  c ← get2 grid i j h;
  if bool_decide (c = 1)
  then Some (l ++ [SetFillStyle "#E5E4E2";
                   FillRect (j * cellSize) (i * cellSize) cellSize cellSize])
  else Some l.

Definition draw_cells (height width : Z) (grid : loc) (h : heap)
    (log : list cmd) : option (list cmd) :=
  foldl (λ log i, foldl (draw_cell grid h i) log (seqZ 0 width))
        (Some log) (seqZ 0 height).

Definition draw (s : state) : option state :=
  match st_ctx s, st_canvas s with
  | Some log, Some cv =>
      log' ← draw_cells (st_height s) (st_width s) (st_grid s) (st_mem s)
                (log ++ [ClearRect 0 0 (cv_width cv) (cv_height cv)]);
      r ← update (st_height s) (st_width s) (st_grid s) (st_mem s);
      Some {| st_canvas := st_canvas s; st_ctx := Some log';
              st_width := st_width s; st_height := st_height s;
              st_grid := r.1; st_mem := r.2 |}
  | _, _ => Some s
  end.

(** The resize listener; [innerWidth] is [window.innerWidth] at the time
    of the event. The listener exists only once [canvas] was found. *)
Definition updateCanvasSize (innerWidth : Z) (s : state) : state :=
  match st_canvas s with
  | Some _ =>
      {| st_canvas := Some {| cv_width := innerWidth; cv_height := 100 |};
         st_ctx := st_ctx s; st_width := st_width s;
         st_height := st_height s; st_grid := st_grid s;
         st_mem := st_mem s |}
  | None => s
  end.

(** [Array(height).fill(null).map(() =>
       Array(width).fill(null).map(() => Math.round(Math.random())))]
    where [rnd i j] tells whether the draw made for cell [(i, j)] rounds
    to 1. *)
Definition random_grid (height width : Z) (rnd : Z → Z → bool) : M loc :=
  do tmp <- Array_fill height VNull;
  do rows <- map_each (seqZ 0 height) (λ i,
               do tmp' <- Array_fill width VNull;
               alloc ((λ j, VNum (if rnd i j then 1 else 0)) <$> seqZ 0 width));
  alloc (VRef <$> rows).

(** The effect body once [canvas] and [ctx] were found: size the canvas,
    derive the grid dimensions, seed the grid. *)
Definition mount (innerWidth : Z) (rnd : Z → Z → bool) : option state :=
  let canvas := {| cv_width := innerWidth; cv_height := 100 |} in
  let width := ceil_div (cv_width canvas) cellSize in
  let height := ceil_div (cv_height canvas) cellSize in
  r ← random_grid height width rnd ∅;
  Some {| st_canvas := Some canvas; st_ctx := Some [];
          st_width := width; st_height := height;
          st_grid := r.1; st_mem := r.2 |}.

Inductive event :=
  | Tick
  | Resize (innerWidth : Z).

Definition step (s : state) (e : event) : option state :=
  match e with
  | Tick => draw s
  | Resize w => Some (updateCanvasSize w s)
  end.

(** ** Reference descriptions

    The operations as the design document words them, on grid values. *)

Definition state_of (G : Grid) (p : Z * Z) : Z := default 0 (cell G p.1 p.2).

Definition in_bounds (height width : Z) (p : Z * Z) : Prop :=
  (0 ≤ p.1 < height) ∧ (0 ≤ p.2 < width).

Global Instance in_bounds_dec (height width : Z) (p : Z * Z) :
  Decision (in_bounds height width p) :=
  decide ((0 ≤ p.1 < height) ∧ (0 ≤ p.2 < width)).

(** The 8 horizontally, vertically and diagonally adjacent coordinates. *)
Definition adjacent (p : Z * Z) : list (Z * Z) :=
  [ (p.1 - 1, p.2 - 1); (p.1 - 1, p.2); (p.1 - 1, p.2 + 1);
    (p.1, p.2 - 1);                     (p.1, p.2 + 1);
    (p.1 + 1, p.2 - 1); (p.1 + 1, p.2); (p.1 + 1, p.2 + 1) ].

Definition sumZ (l : list Z) : Z := foldr Z.add 0 l.

(** Sum of the states of the adjacent coordinates within the grid. *)
Definition countLiveNeighbors (height width : Z) (G : Grid) (p : Z * Z) : Z :=
  sumZ (state_of G <$> filter (in_bounds height width) (adjacent p)).

Definition mk_grid (height width : Z) (f : Z → Z → Z) : Grid :=
  (λ i, f i <$> seqZ 0 width) <$> seqZ 0 height.

(** The state [update] gives cell [(i, j)], and the grid it returns, as
    values. *)
Definition next_cell (height width : Z) (G : Grid) (i j : Z) : Z :=
  next_state (state_of G (i, j)) (countLiveNeighbors height width G (i, j)).

Definition next_grid (height width : Z) (G : Grid) : Grid :=
  mk_grid height width (next_cell height width G).

(** The calls that draw one cell: a filled square of the fixed pitch at
    the cell's position if it is alive, nothing otherwise. *)
Definition paint (G : Grid) (i j : Z) : list cmd :=
  if bool_decide (state_of G (i, j) = 1)
  then [SetFillStyle "#E5E4E2";
        FillRect (j * cellSize) (i * cellSize) cellSize cellSize]
  else [].

(** The calls that draw a grid, row by row. *)
Definition render (height width : Z) (G : Grid) : list cmd :=
  mjoin ((λ i, mjoin (paint G i <$> seqZ 0 width)) <$> seqZ 0 height).

(** Patterns. *)
Definition dead (height width : Z) : Grid := mk_grid height width (λ _ _, 0).

Definition block (height width r c : Z) : Grid :=
  mk_grid height width (λ i j,
    if bool_decide (r ≤ i ≤ r + 1 ∧ c ≤ j ≤ c + 1) then 1 else 0).

Inductive orientation := Horizontal | Vertical.

(** Three alive cells in a row around [(r, c)]. *)
Definition blinker (height width : Z) (o : orientation) (r c : Z) : Grid :=
  mk_grid height width (λ i j,
    match o with
    | Horizontal => if bool_decide (i = r ∧ c - 1 ≤ j ≤ c + 1) then 1 else 0
    | Vertical => if bool_decide (j = c ∧ r - 1 ≤ i ≤ r + 1) then 1 else 0
    end).

(** A store holding one grid of given contents. *)
Definition store_of (G : Grid) : loc * heap :=
  default (1%positive, ∅) (alloc_grid G ∅).

Definition all_alive : Z → Z → bool := λ _ _, true.

(** ** Notions used in the proofs *)

(** [N] with cell [(i, j)] replaced by [v]. *)
Definition set_cell (N : Grid) (i j : Z) (v : Z) : Grid :=
  alter (<[Z.to_nat j := v]>) (Z.to_nat i) N.

(** What one adjacent coordinate adds to the count. *)
Definition contribution (height width : Z) (G : Grid) (p : Z * Z) : Z :=
  if decide (in_bounds height width p) then state_of G p else 0.

(** [owned h0 h g rows N]: in store [h], [g] is a grid with contents [N]
    whose outer array and rows [rows] are distinct objects, none of which
    existed in the earlier store [h0]. *)
Definition owned (h0 h : heap) (g : loc) (rows : list loc) (N : Grid) : Prop :=
  h !! g = Some (VRef <$> rows) ∧ NoDup rows ∧ (g ∉ rows) ∧ h0 !! g = None ∧
  Forall (λ l, h0 !! l = None) rows ∧
  Forall2 (λ l r, h !! l = Some (VNum <$> r)) rows N.

(** Loop invariant of [update]: the store [h0] it started from is intact,
    the new buffer has the right dimensions and holds the new state of
    every cell in [filled]. *)
Definition filling (height width : Z) (h0 : heap) (G : Grid) (g' : loc)
    (rows : list loc) (filled : Z → Z → Prop) (h : heap) : Prop :=
  h0 ⊆ h ∧ ∃ N, owned h0 h g' rows N ∧ shape height width N ∧
    ∀ a b, filled a b → cell N a b = Some (next_cell height width G a b).

(** The other orientation. *)
Definition turn (o : orientation) : orientation :=
  match o with
  | Horizontal => Vertical
  | Vertical => Horizontal
  end.

(** Small stores for the instances below. *)
Definition column3 : Grid := [[0; 1; 0]; [0; 1; 0]; [0; 1; 0]].
Definition block4 : Grid :=
  [[0; 0; 0; 0]; [0; 1; 1; 0]; [0; 1; 1; 0]; [0; 0; 0; 0]].
Definition row5 : Grid :=
  [[0; 0; 0; 0; 0]; [0; 0; 0; 0; 0]; [0; 1; 1; 1; 0]; [0; 0; 0; 0; 0];
   [0; 0; 0; 0; 0]].

Definition column3_state : state :=
  {| st_canvas := Some {| cv_width := 15; cv_height := 15 |};
     st_ctx := Some [];
     st_width := 3; st_height := 3;
     st_grid := (store_of column3).1; st_mem := (store_of column3).2 |}.

Definition detached_state : state :=
  {| st_canvas := None; st_ctx := Some [];
     st_width := 3; st_height := 3;
     st_grid := (store_of column3).1; st_mem := (store_of column3).2 |}.

(** The reading of C4 as it is worded: what a tick draws is the
    generation that tick computed. *)
Definition draws_new_generation (s : state) : Prop :=
  ∀ s' log cv G',
    step s Tick = Some s' → st_ctx s = Some log → st_canvas s = Some cv →
    snapshot (st_mem s') (st_grid s') = Some G' →
    st_ctx s' = Some (log ++ ClearRect 0 0 (cv_width cv) (cv_height cv)
                          :: render (st_height s) (st_width s) G').

(** The reading of C5 as it is worded: after a resize the grid has the
    dimensions of the new surface divided by the cell pitch. *)
Definition resize_recreates_grid (s : state) (innerWidth : Z) : Prop :=
  ∀ s', step s (Resize innerWidth) = Some s' →
    st_width s' = ceil_div innerWidth cellSize ∧
    ∃ G, snapshot (st_mem s') (st_grid s') = Some G ∧
      shape (ceil_div 100 cellSize) (ceil_div innerWidth cellSize) G.

(** The reading of C6 as it is worded: whatever the surface size, the
    derived grid dimensions are positive. *)
Definition dimensions_positive (innerWidth : Z) : Prop :=
  ∀ rnd s, mount innerWidth rnd = Some s → 0 < st_width s ∧ 0 < st_height s.

(** ** The event loop *)

(** The timer and the resize listener deliver their events one at a
    time, in some order. *)
Fixpoint run (s : state) (es : list event) : option state :=
  match es with
  | [] => Some s
  | e :: es' => s' ← step s e; run s' es'
  end.

Fixpoint ticks (es : list event) : nat :=
  match es with
  | [] => 0%nat
  | Tick :: es' => S (ticks es')
  | Resize _ :: es' => ticks es'
  end.

(** The grid the seeding gives for the random draws [rnd]. *)
Definition seed (height width : Z) (rnd : Z → Z → bool) : Grid :=
  mk_grid height width (λ i j, if rnd i j then 1 else 0).

(** A grid whose rows are one and the same array object. *)
Definition alloc_aliased (row : list Z) (n : nat) : M loc :=
  do l <- alloc (VNum <$> row);
  alloc (VRef <$> replicate n l).

Definition aliased_store (row : list Z) (n : nat) : loc * heap :=
  default (1%positive, ∅) (alloc_aliased row n ∅).

(** One alive cell at [(r, c)]. *)
Definition single (height width r c : Z) : Grid :=
  mk_grid height width (λ i j, if bool_decide (i = r ∧ j = c) then 1 else 0).

(** Two grids agree around a coordinate. *)
Definition agree_around (G1 G2 : Grid) (r c : Z) : Prop :=
  ∀ i j, r - 1 ≤ i ≤ r + 1 → c - 1 ≤ j ≤ c + 1 → cell G1 i j = cell G2 i j.

(** * The bouncing numbers (components/three-rules-bounce.tsx) *)

Module Bounce.

(** What [updateSize] reads: the size of the parent element of the
    [pre], if it has one, and the size of the window. *)
Record viewport := {
  parent : option (Z * Z);
  innerWidth : Z;
  innerHeight : Z
}.

(** [a || b] for an optional number [a]. *)
Definition or_else (a : option Z) (b : Z) : Z :=
  match a with
  | Some v => if bool_decide (v = 0) then b else v
  | None => b
  end.

Record size := { width : Z; height : Z }.

(** [pre.parentElement?.offsetWidth || window.innerWidth], and the same
    for the height. *)
Definition containerWidth (v : viewport) : Z :=
  or_else (fst <$> parent v) (innerWidth v).

Definition containerHeight (v : viewport) : Z :=
  or_else (snd <$> parent v) (innerHeight v).

(** The quotients are taken in double precision and floored; for
    integers this is the floor of the exact quotient. *)
Definition updateSize (v : viewport) : size :=
  {| width := (containerWidth v - 20) / 10;
     height := (containerHeight v - 10) / 10 |}.

Record pos := { x : Z; y : Z; dx : Z; dy : Z }.

(** [Math.floor(width * 0.25)] and the like: the factors are exact in
    double precision. *)
Definition initial_positions (sz : size) : list pos :=
  [ {| x := width sz / 4; y := height sz / 2; dx := 1; dy := 1 |};
    {| x := width sz / 2; y := height sz / 2; dx := -1; dy := 1 |};
    {| x := 3 * width sz / 4; y := height sz / 2; dx := 1; dy := -1 |} ].

(** The callback of [updatePositions]: four tests one after the other,
    each on the values the earlier ones left. *)
Definition bounce (sz : size) (p : pos) : pos :=
  let p := {| x := x p + dx p; y := y p + dy p; dx := dx p; dy := dy p |} in
  let p := if bool_decide (x p < 0)
           then {| x := 0; y := y p; dx := 1; dy := dy p |} else p in
  let p := if bool_decide (width sz ≤ x p)
           then {| x := width sz - 1; y := y p; dx := -1; dy := dy p |}
           else p in
  let p := if bool_decide (y p < 0)
           then {| x := x p; y := 0; dx := dx p; dy := 1 |} else p in
  let p := if bool_decide (height sz ≤ y p)
           then {| x := x p; y := height sz - 1; dx := dx p; dy := -1 |}
           else p in
  p.

Definition updatePositions (sz : size) (ps : list pos) : list pos :=
  bounce sz <$> ps.

(** A frame: rows of cells, each cell a string; a hole left by a write
    past the end of a row is the empty string, as [join] reads it. *)
Abbreviation frame := (list (list string)).

(** [Array(height).fill(0).map(() => Array(width).fill(' '))]; [None]
    for the [RangeError] of a negative length. *)
Definition empty_frame (sz : size) : option frame :=
  if decide (0 ≤ height sz) then
    mapM (λ _ : Z, if decide (0 ≤ width sz)
                   then Some (replicate (Z.to_nat (width sz)) " "%string)
                   else None)
         (seqZ 0 (height sz))
  else None.

(** [row[x] = s]: inside the row a replacement, past its end the row
    grows, and a negative [x] names a property that is no element. *)
Definition set_row (row : list string) (x : Z) (s : string) : list string :=
  if decide (x < 0) then row
  else if decide (x < Z.of_nat (length row)) then <[Z.to_nat x := s]> row
  else row ++ replicate (Z.to_nat x - length row) ""%string ++ [s].

(** [frame[y][x] = s]; [None] for the [TypeError] when [frame[y]] is
    [undefined]. *)
Definition set_frame (f : frame) (y x : Z) (s : string) : option frame :=
  if decide (0 ≤ y) then
    row ← f !! Z.to_nat y;
    Some (<[Z.to_nat y := set_row row x s]> f)
  else None.

(** The [forEach] of [draw], from index [index] on. *)
Fixpoint draw_numbers (f : frame) (index : nat) (ps : list pos)
    : option frame :=
  match ps with
  | [] => Some f
  | p :: ps' =>
      f' ← set_frame f (y p) (x p) (pretty (index + 1)%nat);
      draw_numbers f' (S index) ps'
  end.

Definition newline : string := String "010"%char EmptyString.

(** [frame.map(row => row.join('')).join('\n')] *)
Definition frame_text (f : frame) : string :=
  String.concat newline (String.concat "" <$> f).

(** [draw]: the new [textContent] of the [pre]. *)
Definition draw (sz : size) (ps : list pos) : option string :=
  f ← empty_frame sz;
  f' ← draw_numbers f 0 ps;
  Some (frame_text f').

(** The variables of the effect's closure and the text on display. *)
Record state := {
  st_size : size;
  st_positions : list pos;
  st_text : string
}.

Definition mount (v : viewport) : state :=
  let sz := updateSize v in
  {| st_size := sz; st_positions := initial_positions sz; st_text := "" |}.

Inductive event :=
  | Tick
  | Resize (v : viewport).

(** The interval callback ([updatePositions(); draw()]) and
    [handleResize]. *)
Definition step (s : state) (e : event) : option state :=
  match e with
  | Tick =>
      let ps := updatePositions (st_size s) (st_positions s) in
      t ← draw (st_size s) ps;
      Some {| st_size := st_size s; st_positions := ps; st_text := t |}
  | Resize v =>
      Some {| st_size := updateSize v; st_positions := st_positions s;
              st_text := st_text s |}
  end.

Fixpoint run (s : state) (es : list event) : option state :=
  match es with
  | [] => Some s
  | e :: es' => s' ← step s e; run s' es'
  end.

(** The number shown at a cell: the last position listed there. *)
Fixpoint shown (index : nat) (ps : list pos) (r c : Z) : option nat :=
  match ps with
  | [] => None
  | p :: ps' =>
      match shown (S index) ps' r c with
      | Some k => Some k
      | None => if bool_decide (y p = r ∧ x p = c) then Some index else None
      end
  end.

Definition in_frame (sz : size) (p : pos) : Prop :=
  (0 ≤ x p < width sz) ∧ (0 ≤ y p < height sz).

Definition unit_speed (p : pos) : Prop :=
  (dx p = 1 ∨ dx p = -1) ∧ (dy p = 1 ∨ dy p = -1).

(** A size at which [draw] can build its frame and find the rows. *)
Definition fits (sz : size) : Prop := 0 ≤ width sz ∧ 1 ≤ height sz.

Definition cell_at (f : frame) (r c : Z) : option string :=
  if decide (0 ≤ r ∧ 0 ≤ c) then row ← f !! Z.to_nat r; row !! Z.to_nat c
  else None.

Definition frame_shape (sz : size) (f : frame) : Prop :=
  Z.of_nat (length f) = height sz ∧
  Forall (λ row, Z.of_nat (length row) = width sz) f.

(** A container in which every tick can draw: at least 20 pixels wide
    and 20 pixels high. *)
Definition big_enough (v : viewport) : Prop :=
  20 ≤ containerWidth v ∧ 20 ≤ containerHeight v.

Definition resizes_big_enough (es : list event) : Prop :=
  Forall (λ e, match e with
               | Tick => True
               | Resize v => big_enough v
               end) es.



End Bounce.

(** ** Runs on small grids *)

Example block_4x4 : block 4 4 1 1 = block4.
Proof. reflexivity. Qed.

Example blinker_5x5 : blinker 5 5 Horizontal 2 2 = row5.
Proof. reflexivity. Qed.

Example blinker_3x3 : blinker 3 3 Vertical 1 1 = column3.
Proof. reflexivity. Qed.

Example count_centre :
  countAliveNeighbors 3 3 (store_of column3).1 1 1 (store_of column3).2
  = Some 2.
Proof. vm_compute. reflexivity. Qed.

Example count_corner :
  countAliveNeighbors 3 3 (store_of column3).1 0 0 (store_of column3).2
  = Some 2.
Proof. vm_compute. reflexivity. Qed.

Example update_column3 :
  (r ← update 3 3 (store_of column3).1 (store_of column3).2;
   snapshot r.2 r.1) = Some [[0; 0; 0]; [1; 1; 1]; [0; 0; 0]].
Proof. vm_compute. reflexivity. Qed.

Example update_row_too_short :
  update 3 3 (store_of [[0; 1]; [0; 1; 0]; [0; 1; 0]]).1
             (store_of [[0; 1]; [0; 1; 0]; [0; 1; 0]]).2 = None.
Proof. vm_compute. reflexivity. Qed.

Example ceil_div_values :
  ceil_div 100 cellSize = 20 ∧ ceil_div 12 cellSize = 3 ∧
  ceil_div 0 cellSize = 0 ∧ ceil_div (-7) cellSize = -1.
Proof. repeat split. Qed.

Example mount_negative : mount (-7) all_alive = None.
Proof. vm_compute. reflexivity. Qed.

(** ** Loops and allocation *)

Lemma bind_Some {A B} (m : M A) (k : A → M B) (h h' : heap) (a : A) :
  m h = Some (a, h') → bind m k h = k a h'.
Proof. unfold bind. by intros ->. Qed.

Lemma for_each_inv {A} (I : list A → heap → Prop) (xs : list A)
    (body : A → M unit) (h : heap) :
  I [] h →
  (∀ pre x suf h1, xs = pre ++ x :: suf → I pre h1 →
     ∃ h2, body x h1 = Some (tt, h2) ∧ I (pre ++ [x]) h2) →
  ∃ h', for_each xs body h = Some (tt, h') ∧ I xs h'.
Proof.
  revert I h. induction xs as [|x xs IH]; intros I h H0 Hstep.
  - exists h. split; [reflexivity | assumption].
  - destruct (Hstep [] x xs h eq_refl H0) as (h2 & Hb & Hi).
    destruct (IH (λ pre, I (x :: pre)) h2 Hi) as (h' & Hf & Hi').
    + intros pre y suf h1 -> Hpre.
      apply (Hstep (x :: pre) y suf h1); [reflexivity | assumption].
    + exists h'. split; [| assumption].
      simpl. unfold bind. rewrite Hb. exact Hf.
Qed.

Lemma alloc_fresh (arr : list val) (h : heap) :
  ∃ l, alloc arr h = Some (l, <[l := arr]> h) ∧ h !! l = None.
Proof.
  exists (fresh (dom h)). split; [reflexivity |].
  apply not_elem_of_dom. apply is_fresh.
Qed.

(** What a sequence of allocations leaves behind: new, pairwise distinct
    objects with the given contents, and every older object as it was. *)
Lemma map_each_alloc {A} (f : A → list val) (body : A → M loc) (xs : list A)
    (h : heap) :
  (∀ x h1, x ∈ xs → ∃ l h2, body x h1 = Some (l, h2) ∧ h1 ⊆ h2 ∧
     h1 !! l = None ∧ h2 !! l = Some (f x)) →
  ∃ rows h', map_each xs body h = Some (rows, h') ∧ h ⊆ h' ∧
    NoDup rows ∧ Forall (λ l, h !! l = None) rows ∧
    Forall2 (λ l x, h' !! l = Some (f x)) rows xs.
Proof.
  revert h. induction xs as [|x xs IH]; intros h Hbody.
  - exists [], h.
    repeat split; [done | constructor | constructor | constructor].
  - destruct (Hbody x h) as (l & h2 & Hb & Hsub & Hnew & Hl); [left |].
    destruct (IH h2) as (rows & h' & Hm & Hsub' & Hnd & Hfr & Hall).
    { intros y h1 Hy. apply Hbody. by right. }
    exists (l :: rows), h'. split; [| split; [| split; [| split]]].
    + simpl. unfold bind. rewrite Hb. fold (@map_each A loc). rewrite Hm. done.
    + by transitivity h2.
    + constructor; [| done]. intros Hin.
      rewrite Forall_forall in Hfr. specialize (Hfr l Hin). congruence.
    + constructor; [done |]. eapply Forall_impl; [exact Hfr |].
      intros l' Hl'. simpl in Hl'.
      destruct (h !! l') eqn:E; [| done].
      eapply lookup_weaken in E; [| exact Hsub]. congruence.
    + constructor; [| done]. eapply lookup_weaken; eauto.
Qed.

Lemma Array_fill_alloc (n : Z) (v : val) (h : heap) :
  0 ≤ n →
  ∃ l h', Array_fill n v h = Some (l, h') ∧ h ⊆ h' ∧ h !! l = None ∧
    h' !! l = Some (replicate (Z.to_nat n) v).
Proof.
  intros Hn. unfold Array_fill. rewrite decide_True by done.
  destruct (alloc_fresh (replicate (Z.to_nat n) v) h) as (l & -> & Hl).
  exists l, (<[l := replicate (Z.to_nat n) v]> h).
  split; [done |]. split; [by apply insert_subseteq |].
  split; [done |]. apply lookup_insert_eq.
Qed.

(** ** Reading a grid from the store *)

Lemma snapshot_spec (h : heap) (g : loc) (G : Grid) :
  snapshot h g = Some G ↔
  ∃ arr, h !! g = Some arr ∧ Forall2 (λ v row, read_row h v = Some row) arr G.
Proof.
  unfold snapshot. split.
  - intros H. destruct (h !! g) as [arr|]; [| done]. simpl in H.
    exists arr. split; [done |]. by apply mapM_Some.
  - intros (arr & -> & H). simpl. by apply mapM_Some.
Qed.

Lemma read_row_spec (h : heap) (v : val) (row : list Z) :
  read_row h v = Some row ↔
  ∃ l, v = VRef l ∧ h !! l = Some (VNum <$> row).
Proof.
  unfold read_row. split.
  - destruct v as [n|l|]; [done | | done]. intros H.
    destruct (h !! l) as [arr|] eqn:E; [| done]. simpl in H.
    exists l. split; [done |]. rewrite E. f_equal.
    apply mapM_Some in H. clear -H.
    induction H as [|v n arr row Hv _ IH]; [done |].
    destruct v; simplify_eq/=. by f_equal.
  - intros (l & -> & ->). simpl. apply mapM_Some.
    induction row; constructor; done.
Qed.

Lemma read_row_mono (h h' : heap) (v : val) (row : list Z) :
  h ⊆ h' → read_row h v = Some row → read_row h' v = Some row.
Proof.
  intros Hsub. rewrite !read_row_spec. intros (l & -> & Hl).
  exists l. split; [done |]. eapply lookup_weaken; eauto.
Qed.

(** Objects are only ever added next to a grid that is being read. *)
Lemma snapshot_mono (h h' : heap) (g : loc) (G : Grid) :
  h ⊆ h' → snapshot h g = Some G → snapshot h' g = Some G.
Proof.
  intros Hsub. rewrite !snapshot_spec. intros (arr & Hg & Hall).
  exists arr. split; [eapply lookup_weaken; eauto |].
  eapply Forall2_impl; [exact Hall |]. intros v row. by apply read_row_mono.
Qed.

Lemma get2_snapshot (h : heap) (g : loc) (G : Grid) (x y : Z) :
  snapshot h g = Some G → get2 g x y h = cell G x y.
Proof.
  rewrite snapshot_spec. intros (arr & Hg & Hall).
  unfold get2, index, cell.
  destruct (decide (0 ≤ x)) as [Hx|Hx]; simpl.
  2: { destruct (decide (0 ≤ x ∧ 0 ≤ y)); [lia | done]. }
  rewrite Hg. simpl.
  destruct (G !! Z.to_nat x) as [row|] eqn:Eg.
  - destruct (Forall2_lookup_r _ _ _ _ _ Hall Eg) as (v & -> & Hrow).
    simpl. apply read_row_spec in Hrow as (l & -> & Hl).
    destruct (decide (0 ≤ y)) as [Hy|Hy]; simpl.
    + destruct (decide (0 ≤ x ∧ 0 ≤ y)); [| lia]. simpl. rewrite Hl. simpl.
      rewrite list_lookup_fmap. by destruct (row !! Z.to_nat y).
    + destruct (decide (0 ≤ x ∧ 0 ≤ y)); [lia | done].
  - apply lookup_ge_None in Eg. rewrite <- (Forall2_length _ _ _ Hall) in Eg.
    apply lookup_ge_None in Eg. rewrite Eg. simpl.
    by destruct (decide (0 ≤ x ∧ 0 ≤ y)).
Qed.

(** ** Grid values *)

Lemma shape_dims (height width : Z) (G : Grid) :
  shape height width G → 0 ≤ height ∧ (0 < height → 0 ≤ width).
Proof.
  intros [Hh Hw]. split; [lia |]. intros Hpos.
  destruct G as [|row G]; simpl in Hh; [lia |].
  inversion Hw; subst. lia.
Qed.

Lemma cell_Some (G : Grid) (x y v : Z) :
  cell G x y = Some v ↔
  0 ≤ x ∧ 0 ≤ y ∧
  ∃ row, G !! Z.to_nat x = Some row ∧ row !! Z.to_nat y = Some v.
Proof.
  unfold cell. destruct (decide (0 ≤ x ∧ 0 ≤ y)) as [Hxy|Hxy].
  - destruct (G !! Z.to_nat x) as [row|]; simpl.
    + split; [intros Hv; eauto 6 with lia |].
      intros (_ & _ & row' & [= <-] & Hv). done.
    + split; [done |]. intros (_ & _ & row' & [=] & _).
  - split; [done |]. intros (? & ? & _). lia.
Qed.

Lemma cell_shape (height width : Z) (G : Grid) (x y : Z) :
  shape height width G → 0 ≤ x < height → 0 ≤ y < width →
  ∃ v, cell G x y = Some v.
Proof.
  intros [Hh Hw] Hx Hy.
  destruct (lookup_lt_is_Some_2 G (Z.to_nat x)) as [row Hrow]; [lia |].
  rewrite Forall_lookup in Hw. specialize (Hw _ _ Hrow). simpl in Hw.
  destruct (lookup_lt_is_Some_2 row (Z.to_nat y)) as [v Hv]; [lia |].
  exists v. apply cell_Some. eauto 6 with lia.
Qed.

Lemma state_of_cell (G : Grid) (x y v : Z) :
  cell G x y = Some v → state_of G (x, y) = v.
Proof. unfold state_of. simpl. by intros ->. Qed.

Lemma cell_state_of (height width : Z) (G : Grid) (x y : Z) :
  shape height width G → 0 ≤ x < height → 0 ≤ y < width →
  cell G x y = Some (state_of G (x, y)).
Proof.
  intros Hs Hx Hy. destruct (cell_shape _ _ _ _ _ Hs Hx Hy) as [v Hv].
  by rewrite (state_of_cell _ _ _ _ Hv).
Qed.

Lemma cell_mk_grid (height width : Z) (f : Z → Z → Z) (x y : Z) :
  0 ≤ x < height → 0 ≤ y < width →
  cell (mk_grid height width f) x y = Some (f x y).
Proof.
  intros Hx Hy. apply cell_Some. split; [lia |]. split; [lia |].
  exists (f x <$> seqZ 0 width). unfold mk_grid. split.
  - rewrite list_lookup_fmap, lookup_seqZ_lt by lia. simpl.
    by rewrite Z2Nat.id by lia.
  - rewrite list_lookup_fmap, lookup_seqZ_lt by lia. simpl.
    by rewrite Z2Nat.id by lia.
Qed.

Lemma shape_mk_grid (height width : Z) (f : Z → Z → Z) :
  0 ≤ height → (0 < height → 0 ≤ width) →
  shape height width (mk_grid height width f).
Proof.
  intros Hh Hw. unfold shape, mk_grid. split.
  - rewrite length_fmap, length_seqZ. lia.
  - apply Forall_fmap, Forall_forall. intros i Hi. simpl.
    apply elem_of_seqZ in Hi. rewrite length_fmap, length_seqZ. lia.
Qed.

(** A grid is determined by its dimensions and its cells. *)
Lemma grid_eq_mk (height width : Z) (f : Z → Z → Z) (N : Grid) :
  shape height width N →
  (∀ x y, 0 ≤ x < height → 0 ≤ y < width → cell N x y = Some (f x y)) →
  N = mk_grid height width f.
Proof.
  intros [Hh Hw] Hcell. apply list_eq. intros i. unfold mk_grid.
  rewrite list_lookup_fmap.
  destruct (decide (Z.of_nat i < height)) as [Hi|Hi].
  - rewrite lookup_seqZ_lt by lia. simpl.
    destruct (lookup_lt_is_Some_2 N i) as [row Hrow]; [lia |].
    rewrite Hrow. f_equal. rewrite Forall_lookup in Hw.
    specialize (Hw _ _ Hrow). simpl in Hw.
    apply list_eq. intros j. rewrite list_lookup_fmap.
    destruct (decide (Z.of_nat j < width)) as [Hj|Hj].
    + rewrite lookup_seqZ_lt by lia. simpl.
      specialize (Hcell (Z.of_nat i) (Z.of_nat j)).
      rewrite cell_Some, !Nat2Z.id in Hcell.
      destruct Hcell as (_ & _ & row' & Hrow' & Hv); [lia | lia |].
      rewrite !Z.add_0_l. congruence.
    + rewrite lookup_seqZ_ge by lia. simpl.
      apply lookup_ge_None. lia.
  - rewrite lookup_seqZ_ge by lia. simpl. apply lookup_ge_None. lia.
Qed.

Lemma shape_set_cell (height width : Z) (N : Grid) (i j v : Z) :
  shape height width N → shape height width (set_cell N i j v).
Proof.
  intros [Hh Hw]. unfold shape, set_cell. split.
  - by rewrite length_alter.
  - apply Forall_lookup. intros k row Hk.
    rewrite Forall_lookup in Hw.
    destruct (decide (k = Z.to_nat i)) as [->|Hne].
    + rewrite list_lookup_alter_eq in Hk.
      destruct (N !! Z.to_nat i) as [row'|] eqn:E; simplify_eq/=.
      rewrite length_insert. by apply (Hw _ _ E).
    + rewrite list_lookup_alter_ne in Hk by done. by apply (Hw _ _ Hk).
Qed.

Lemma cell_set_cell_eq (N : Grid) (i j v old : Z) :
  cell N i j = Some old → cell (set_cell N i j v) i j = Some v.
Proof.
  rewrite !cell_Some. intros (Hi & Hj & row & Hrow & Hold).
  split; [done |]. split; [done |].
  exists (<[Z.to_nat j := v]> row). unfold set_cell. split.
  - by rewrite list_lookup_alter_eq, Hrow.
  - apply list_lookup_insert_eq. by eapply lookup_lt_Some.
Qed.

Lemma cell_set_cell_ne (N : Grid) (i j v a b : Z) :
  0 ≤ i → 0 ≤ j → (a, b) ≠ (i, j) →
  cell (set_cell N i j v) a b = cell N a b.
Proof.
  intros Hi Hj Hne. unfold cell, set_cell.
  destruct (decide (0 ≤ a ∧ 0 ≤ b)) as [[Ha Hb]|]; [| done].
  destruct (decide (Z.to_nat a = Z.to_nat i)) as [Heq|Hneq].
  - rewrite Heq, list_lookup_alter_eq.
    destruct (N !! Z.to_nat i) as [row|]; [| done]. simpl.
    apply list_lookup_insert_ne. intros Hjb.
    apply Hne. f_equal; lia.
  - by rewrite list_lookup_alter_ne.
Qed.

(** ** Neighbour counting *)

Lemma sumZ_filter {A} (P : A → Prop) `{!∀ a, Decision (P a)} (f : A → Z)
    (l : list A) :
  sumZ (f <$> filter P l) = sumZ ((λ a, if decide (P a) then f a else 0) <$> l).
Proof.
  induction l as [|a l IH]; [done |].
  unfold sumZ in *. rewrite filter_cons, fmap_cons. cbn [foldr].
  destruct (decide (P a)); rewrite ?fmap_cons; cbn [foldr]; rewrite IH; lia.
Qed.

Lemma countLiveNeighbors_expand (height width : Z) (G : Grid) (x y : Z) :
  countLiveNeighbors height width G (x, y) =
  contribution height width G (x - 1, y - 1) +
  contribution height width G (x - 1, y) +
  contribution height width G (x - 1, y + 1) +
  contribution height width G (x, y - 1) +
  contribution height width G (x, y + 1) +
  contribution height width G (x + 1, y - 1) +
  contribution height width G (x + 1, y) +
  contribution height width G (x + 1, y + 1).
Proof.
  unfold countLiveNeighbors. rewrite sumZ_filter. unfold contribution.
  simpl. lia.
Qed.

Section Counting.
Variables height width : Z.
Variables (h : heap) (g : loc) (G : Grid).
Hypothesis Hsnap : snapshot h g = Some G.
Hypothesis Hshape : shape height width G.

Lemma count_step_centre (x y c : Z) :
  count_step height width g x y h 0 (Some c) 0 = Some c.
Proof. reflexivity. Qed.

Lemma count_step_adjacent (x y c i j : Z) :
  (i, j) ≠ (0, 0) →
  count_step height width g x y h i (Some c) j =
  Some (c + contribution height width G (x + i, y + j)).
Proof.
  intros Hij. unfold count_step, contribution. simpl.
  assert (bool_decide (i = 0) && bool_decide (j = 0) = false) as ->.
  { apply andb_false_iff. rewrite !bool_decide_eq_false.
    destruct (decide (i = 0)); [right | left]; congruence. }
  destruct (decide (in_bounds height width (x + i, y + j))) as [Hin|Hout].
  - destruct Hin as [Hx Hy]. simpl in Hx, Hy.
    rewrite !bool_decide_eq_true_2 by lia. simpl.
    rewrite (get2_snapshot _ _ _ _ _ Hsnap).
    by rewrite (cell_state_of _ _ _ _ _ Hshape Hx Hy).
  - unfold in_bounds in Hout. simpl in Hout.
    destruct (bool_decide (0 ≤ x + i)) eqn:E1; [| by rewrite Z.add_0_r].
    destruct (bool_decide (x + i < height)) eqn:E2; [| by rewrite Z.add_0_r].
    destruct (bool_decide (0 ≤ y + j)) eqn:E3; [| by rewrite Z.add_0_r].
    destruct (bool_decide (y + j < width)) eqn:E4; [| by rewrite Z.add_0_r].
    apply bool_decide_eq_true in E1, E2, E3, E4. lia.
Qed.

(** [countAliveNeighbors] computes the sum over the adjacent
    coordinates inside the grid; nothing outside is read. *)
Lemma countAliveNeighbors_snapshot (x y : Z) :
  countAliveNeighbors height width g x y h =
  Some (countLiveNeighbors height width G (x, y)).
Proof.
  unfold countAliveNeighbors, offsets. cbn [foldl].
  rewrite !count_step_adjacent by (intros [=]).
  rewrite count_step_centre.
  rewrite !count_step_adjacent by (intros [=]).
  f_equal. rewrite countLiveNeighbors_expand. rewrite !Z.add_0_r.
  change (x + -1) with (x - 1). change (y + -1) with (y - 1). lia.
Qed.

End Counting.

(** ** The buffer [update] allocates and fills *)

Lemma owned_snapshot (h0 h : heap) (g : loc) (rows : list loc) (N : Grid) :
  owned h0 h g rows N → snapshot h g = Some N.
Proof.
  intros (Hg & _ & _ & _ & _ & Hrows). apply snapshot_spec.
  exists (VRef <$> rows). split; [done |].
  apply Forall2_fmap_l. eapply Forall2_impl; [exact Hrows |].
  intros l r Hl. apply read_row_spec. eauto.
Qed.

Lemma owned_weaken (h0 h0' h : heap) (g : loc) (rows : list loc) (N : Grid) :
  h0 ⊆ h0' → owned h0' h g rows N → owned h0 h g rows N.
Proof.
  intros Hsub (Hg & Hnd & Hgr & Hg0 & Hfr & Hrows).
  repeat split; try done.
  - exact (lookup_weaken_None _ _ _ Hg0 Hsub).
  - eapply Forall_impl; [exact Hfr |]. intros l Hl. simpl in Hl.
    exact (lookup_weaken_None _ _ _ Hl Hsub).
Qed.

(** Rows allocated one by one, then the outer array. *)
Lemma alloc_rows_owned {A} (F : A → list Z) (body : A → M loc) (xs : list A)
    (h : heap) :
  (∀ x h1, x ∈ xs → ∃ l h2, body x h1 = Some (l, h2) ∧ h1 ⊆ h2 ∧
     h1 !! l = None ∧ h2 !! l = Some (VNum <$> F x)) →
  ∃ g h1 rows,
    (do rows <- map_each xs body; alloc (VRef <$> rows)) h = Some (g, h1) ∧
    h ⊆ h1 ∧ owned h h1 g rows (F <$> xs).
Proof.
  intros Hbody.
  destruct (map_each_alloc (λ x, VNum <$> F x) body xs h Hbody)
    as (rows & hb & Hm & Hsb & Hnd & Hfr & Hall).
  destruct (alloc_fresh (VRef <$> rows) hb) as (g & Hal & Hg).
  assert (hb ⊆ <[g := VRef <$> rows]> hb) as Hsc by by apply insert_subseteq.
  exists g, (<[g := VRef <$> rows]> hb), rows.
  split; [by rewrite (bind_Some _ _ _ _ _ Hm) |].
  split; [by etrans |]. repeat split.
  - apply lookup_insert_eq.
  - done.
  - intros Hin. apply list_elem_of_lookup in Hin as [k Hk].
    destruct (Forall2_lookup_l _ _ _ _ _ Hall Hk) as (x & _ & Hx). congruence.
  - exact (lookup_weaken_None _ _ _ Hg Hsb).
  - done.
  - apply Forall2_fmap_r. eapply Forall2_impl; [exact Hall |].
    intros l x Hl. exact (lookup_weaken _ _ _ _ Hl Hsc).
Qed.

Lemma new_grid_spec (height width : Z) (h : heap) :
  0 ≤ height → (0 < height → 0 ≤ width) →
  ∃ g h1 rows N0, new_grid height width h = Some (g, h1) ∧ h ⊆ h1 ∧
    owned h h1 g rows N0 ∧ shape height width N0.
Proof.
  intros Hh Hw. unfold new_grid.
  destruct (Array_fill_alloc height VNull h Hh) as (tmp & ha & Htmp & Hsa & _).
  destruct (alloc_rows_owned (λ _ : Z, replicate (Z.to_nat width) 0)
              (λ _ : Z, Array_fill width (VNum 0)) (seqZ 0 height) ha)
    as (g & h1 & rows & Hrun & Hsb & Hown).
  { intros x h1 Hx. apply elem_of_seqZ in Hx. rewrite fmap_replicate.
    apply Array_fill_alloc. apply Hw. lia. }
  eexists g, h1, rows, _.
  split; [by rewrite (bind_Some _ _ _ _ _ Htmp) |].
  split; [by etrans |]. split; [by eapply owned_weaken |]. split.
  - rewrite length_fmap, length_seqZ. lia.
  - apply Forall_fmap, Forall_forall. intros x Hx. simpl.
    apply elem_of_seqZ in Hx. rewrite length_replicate. lia.
Qed.

Lemma random_grid_spec (height width : Z) (rnd : Z → Z → bool) (h : heap) :
  0 ≤ height → (0 < height → 0 ≤ width) →
  ∃ g h1 rows, random_grid height width rnd h = Some (g, h1) ∧ h ⊆ h1 ∧
    owned h h1 g rows
      (mk_grid height width (λ i j, if rnd i j then 1 else 0)).
Proof.
  intros Hh Hw. unfold random_grid.
  destruct (Array_fill_alloc height VNull h Hh) as (tmp & ha & Htmp & Hsa & _).
  destruct (alloc_rows_owned
              (λ i : Z, (λ j, if rnd i j then 1 else 0) <$> seqZ 0 width)
              (λ i : Z, do tmp' <- Array_fill width VNull;
                 alloc ((λ j, VNum (if rnd i j then 1 else 0))
                          <$> seqZ 0 width))
              (seqZ 0 height) ha)
    as (g & h1 & rows & Hrun & Hsb & Hown).
  { intros i h1 Hi. apply elem_of_seqZ in Hi.
    destruct (Array_fill_alloc width VNull h1) as (t & hb & Ht & Hsb & _);
      [apply Hw; lia |].
    destruct (alloc_fresh
                ((λ j, VNum (if rnd i j then 1 else 0)) <$> seqZ 0 width) hb)
      as (l & Hal & Hl).
    eexists l, _. split; [rewrite (bind_Some _ _ _ _ _ Ht); exact Hal |].
    split; [etrans; [exact Hsb | by apply insert_subseteq] |].
    split; [exact (lookup_weaken_None _ _ _ Hl Hsb) |].
    rewrite lookup_insert_eq. by rewrite <- list_fmap_compose. }
  exists g, h1, rows.
  split; [by rewrite (bind_Some _ _ _ _ _ Htmp) |].
  split; [by etrans |]. by eapply owned_weaken.
Qed.

Lemma set2_owned (h0 h : heap) (g : loc) (rows : list loc) (N : Grid)
    (i j v old : Z) :
  h0 ⊆ h → owned h0 h g rows N → cell N i j = Some old →
  ∃ h', set2 g i j v h = Some (tt, h') ∧ h0 ⊆ h' ∧
    owned h0 h' g rows (set_cell N i j v).
Proof.
  intros Hsub (Hg & Hnd & Hgr & Hg0 & Hfr & Hrows) Hcell.
  apply cell_Some in Hcell as (Hi & Hj & row & Hrow & Hold).
  destruct (Forall2_lookup_r _ _ _ _ _ Hrows Hrow) as (l & Hl & Hhl).
  assert (l ∈ rows) as Hin by (apply list_elem_of_lookup; eauto).
  assert (h0 !! l = None) as Hl0 by by rewrite Forall_forall in Hfr; apply Hfr.
  assert (g ≠ l) as Hgl by congruence.
  exists (<[l := <[Z.to_nat j := VNum v]> (VNum <$> row)]> h).
  split; [| split; [by apply insert_subseteq_r | repeat split]].
  - unfold set2, index. rewrite decide_True by done. rewrite Hg. simpl.
    rewrite list_lookup_fmap, Hl. simpl. rewrite Hhl. simpl.
    apply lookup_lt_Some in Hold.
    rewrite decide_True; [done |]. rewrite length_fmap. lia.
  - by rewrite lookup_insert_ne.
  - done.
  - done.
  - done.
  - done.
  - apply Forall2_lookup. intros k. unfold set_cell.
    rewrite Forall2_lookup in Hrows. specialize (Hrows k).
    destruct (decide (k = Z.to_nat i)) as [->|Hne].
    + rewrite list_lookup_alter_eq, Hl, Hrow. simpl. constructor.
      rewrite lookup_insert_eq. by rewrite list_fmap_insert.
    + rewrite list_lookup_alter_ne by done.
      inversion Hrows as [l' r Hl' El Er|]; constructor.
      rewrite lookup_insert_ne; [done |]. intros <-.
      apply Hne. symmetry. by eapply NoDup_lookup.
Qed.

(** ** [update] computes the next grid into a fresh buffer *)

Section Update.
Variables height width : Z.
Variables (h0 : heap) (g : loc) (G : Grid).
Hypothesis Hsnap : snapshot h0 g = Some G.
Hypothesis Hshape : shape height width G.

Lemma filling_weaken (g' : loc) (rows : list loc)
    (filled filled' : Z → Z → Prop) (h : heap) :
  (∀ a b, filled' a b → filled a b) →
  filling height width h0 G g' rows filled h →
  filling height width h0 G g' rows filled' h.
Proof.
  intros Himp (Hsub & N & Hown & HN & Hcells).
  split; [done |]. exists N. auto.
Qed.

Lemma update_cell (g' : loc) (rows : list loc) (filled : Z → Z → Prop)
    (i j : Z) (h : heap) :
  0 ≤ i < height → 0 ≤ j < width → filling height width h0 G g' rows filled h →
  ∃ h', (do neighbors <- reading (countAliveNeighbors height width g i j);
         do c <- reading (get2 g i j);
         set2 g' i j (next_state c neighbors)) h = Some (tt, h') ∧
    filling height width h0 G g' rows (λ a b, filled a b ∨ (a = i ∧ b = j)) h'.
Proof.
  intros Hi Hj (Hsub & N & Hown & HN & Hcells).
  pose proof (snapshot_mono _ _ _ _ Hsub Hsnap) as Hsnap'.
  unfold bind, reading.
  rewrite (countAliveNeighbors_snapshot _ _ _ _ _ Hsnap' Hshape).
  rewrite (get2_snapshot _ _ _ _ _ Hsnap').
  rewrite (cell_state_of _ _ _ _ _ Hshape Hi Hj).
  destruct (cell_shape _ _ _ _ _ HN Hi Hj) as [old Hold].
  destruct (set2_owned _ _ _ _ _ i j (next_cell height width G i j) old
              Hsub Hown Hold)
    as (h' & Hset & Hsub' & Hown').
  exists h'. split; [exact Hset |]. split; [done |].
  exists (set_cell N i j (next_cell height width G i j)).
  split; [done |]. split; [by apply shape_set_cell |].
  intros a b [Hab|[-> ->]].
  - destruct (decide ((a, b) = (i, j))) as [[= -> ->]|Hne].
    + by eapply cell_set_cell_eq.
    + rewrite cell_set_cell_ne by (done || lia). auto.
  - by eapply cell_set_cell_eq.
Qed.

Lemma update_row (g' : loc) (rows : list loc) (filled : Z → Z → Prop)
    (i : Z) (h : heap) :
  0 ≤ i < height → filling height width h0 G g' rows filled h →
  ∃ h', for_each (seqZ 0 width) (λ j,
          do neighbors <- reading (countAliveNeighbors height width g i j);
          do c <- reading (get2 g i j);
          set2 g' i j (next_state c neighbors)) h = Some (tt, h') ∧
    filling height width h0 G g' rows
      (λ a b, filled a b ∨ (a = i ∧ 0 ≤ b < width)) h'.
Proof.
  intros Hi Hfill.
  edestruct (for_each_inv
    (λ pre, filling height width h0 G g' rows
              (λ a b, filled a b ∨ (a = i ∧ b ∈ pre))))
    as (h' & Hloop & Hend); [| | exists h'; split; [exact Hloop |]].
  - eapply filling_weaken; [| exact Hfill].
    intros a b [?|[_ Hin]]; [done |]. by apply elem_of_nil in Hin.
  - intros pre j suf h1 Hsplit Hpre.
    assert (j ∈ seqZ 0 width) as Hj
      by (rewrite Hsplit; apply elem_of_app; right; left).
    apply elem_of_seqZ in Hj.
    destruct (update_cell _ _ _ i j h1 Hi ltac:(lia) Hpre) as (h2 & Hb & Hf).
    exists h2. split; [exact Hb |].
    eapply filling_weaken; [| exact Hf]. simpl.
    intros a b [?|[-> Hin]]; [by left; left |].
    apply elem_of_app in Hin as [Hin|Hin]; [left; right; done |].
    apply list_elem_of_singleton in Hin. right. done.
  - eapply filling_weaken; [| exact Hend]. simpl.
    intros a b [?|[-> Hb]]; [by left |]. right. split; [done |].
    apply elem_of_seqZ. lia.
Qed.

(** The result of [update]: a grid in new objects, next to an
    unchanged old store, whose contents are [next_grid]. *)
Theorem update_spec :
  ∃ g' h' rows, update height width g h0 = Some (g', h') ∧ h0 ⊆ h' ∧
    owned h0 h' g' rows (next_grid height width G).
Proof.
  destruct (shape_dims _ _ _ Hshape) as [Hh Hw].
  destruct (new_grid_spec height width h0 Hh Hw)
    as (g' & h1 & rows & N0 & Hnew & Hsub1 & Hown1 & HN0).
  edestruct (for_each_inv
    (λ pre, filling height width h0 G g' rows (λ a b, a ∈ pre ∧ 0 ≤ b < width))
    (seqZ 0 height)
    (λ i, for_each (seqZ 0 width) (λ j,
       do neighbors <- reading (countAliveNeighbors height width g i j);
       do c <- reading (get2 g i j);
       set2 g' i j (next_state c neighbors)))
    h1) as (h' & Hloop & Hend).
  - split; [exact Hsub1 |]. exists N0. split; [done |]. split; [done |].
    intros a b [Hin _]. by apply elem_of_nil in Hin.
  - intros pre i suf h2 Hsplit Hpre.
    assert (i ∈ seqZ 0 height) as Hi
      by (rewrite Hsplit; apply elem_of_app; right; left).
    apply elem_of_seqZ in Hi.
    destruct (update_row g' rows _ i h2 ltac:(lia) Hpre) as (h3 & Hb & Hf).
    exists h3. split; [exact Hb |].
    eapply filling_weaken; [| exact Hf]. simpl.
    intros a b [Hin Hb']. apply elem_of_app in Hin as [Hin|Hin].
    + by left.
    + apply list_elem_of_singleton in Hin. by right.
  - destruct Hend as (Hsub & N & Hown & HN & Hcells).
    exists g', h', rows. split; [| split; [done |]].
    + unfold update.
      rewrite (bind_Some _ _ _ _ _ Hnew), (bind_Some _ _ _ _ _ Hloop). done.
    + replace (next_grid height width G) with N; [done |].
      apply grid_eq_mk; [done |]. intros x y Hx Hy.
      apply Hcells. split; [| done]. apply elem_of_seqZ. lia.
Qed.

End Update.

(** ** Patterns *)

Lemma contribution_mk_grid (height width : Z) (f : Z → Z → Z) (p : Z * Z) :
  contribution height width (mk_grid height width f) p =
  if decide (in_bounds height width p) then f p.1 p.2 else 0.
Proof.
  unfold contribution.
  destruct (decide (in_bounds height width p)) as [[Hx Hy]|]; [| done].
  destruct p as [x y]. apply state_of_cell. by apply cell_mk_grid.
Qed.

Lemma mk_grid_ext (height width : Z) (f f' : Z → Z → Z) :
  (∀ x y, 0 ≤ x < height → 0 ≤ y < width → f x y = f' x y) →
  mk_grid height width f = mk_grid height width f'.
Proof.
  intros Hext. unfold mk_grid.
  apply list_fmap_ext. intros i x Hx.
  apply lookup_seqZ in Hx as [-> Hi].
  apply list_fmap_ext. intros j y Hy.
  apply lookup_seqZ in Hy as [-> Hj].
  apply Hext; lia.
Qed.

(** The next grid of a grid given cell by cell. *)
Lemma next_grid_mk_grid (height width : Z) (f f' : Z → Z → Z) :
  (∀ x y, 0 ≤ x < height → 0 ≤ y < width →
     next_state (f x y)
       ((if decide (in_bounds height width (x - 1, y - 1))
         then f (x - 1) (y - 1) else 0) +
        (if decide (in_bounds height width (x - 1, y))
         then f (x - 1) y else 0) +
        (if decide (in_bounds height width (x - 1, y + 1))
         then f (x - 1) (y + 1) else 0) +
        (if decide (in_bounds height width (x, y - 1))
         then f x (y - 1) else 0) +
        (if decide (in_bounds height width (x, y + 1))
         then f x (y + 1) else 0) +
        (if decide (in_bounds height width (x + 1, y - 1))
         then f (x + 1) (y - 1) else 0) +
        (if decide (in_bounds height width (x + 1, y))
         then f (x + 1) y else 0) +
        (if decide (in_bounds height width (x + 1, y + 1))
         then f (x + 1) (y + 1) else 0)) = f' x y) →
  next_grid height width (mk_grid height width f) = mk_grid height width f'.
Proof.
  intros Hrule. unfold next_grid, next_cell. apply mk_grid_ext.
  intros x y Hx Hy.
  rewrite countLiveNeighbors_expand, !contribution_mk_grid. simpl.
  rewrite (state_of_cell _ _ _ _ (cell_mk_grid height width f x y Hx Hy)).
  by apply Hrule.
Qed.

Lemma if_decide_same {A} (P : Prop) `{!Decision P} (a : A) :
  (if decide P then a else a) = a.
Proof. by destruct (decide P). Qed.

(** Settles the tests of a pattern at a position that the context pins
    down, then the bounds tests of the neighbours that matter. *)
Ltac settle_pattern :=
  repeat match goal with
  | |- context [bool_decide ?P] =>
      first [ rewrite (bool_decide_eq_true_2 P) by lia
            | rewrite (bool_decide_eq_false_2 P) by lia ]
  end;
  cbv iota;
  rewrite ?if_decide_same;
  repeat match goal with
  | |- context [decide (in_bounds ?h ?w ?p)] =>
      rewrite (decide_True (P := in_bounds h w p))
        by (unfold in_bounds; simpl; lia)
  end;
  reflexivity.

Lemma next_grid_dead (height width : Z) :
  next_grid height width (dead height width) = dead height width.
Proof.
  apply next_grid_mk_grid. intros x y Hx Hy. settle_pattern.
Qed.

Lemma next_grid_block (height width r c : Z) :
  0 ≤ r → r + 1 < height → 0 ≤ c → c + 1 < width →
  next_grid height width (block height width r c) = block height width r c.
Proof.
  intros Hr Hr' Hc Hc'. apply next_grid_mk_grid. intros x y Hx Hy.
  assert (x < r - 1 ∨ x = r - 1 ∨ x = r ∨ x = r + 1 ∨ x = r + 2 ∨ r + 2 < x)
    as Hxs by lia.
  assert (y < c - 1 ∨ y = c - 1 ∨ y = c ∨ y = c + 1 ∨ y = c + 2 ∨ c + 2 < y)
    as Hys by lia.
  destruct Hxs as [?|[?|[?|[?|[?|?]]]]];
    destruct Hys as [?|[?|[?|[?|[?|?]]]]]; settle_pattern.
Qed.

(** One generation turns a blinker by a quarter. *)
Lemma next_grid_blinker (height width : Z) (o : orientation) (r c : Z) :
  1 ≤ r → r + 1 < height → 1 ≤ c → c + 1 < width →
  next_grid height width (blinker height width o r c) =
  blinker height width (turn o) r c.
Proof.
  intros Hr Hr' Hc Hc'. apply next_grid_mk_grid. intros x y Hx Hy.
  assert (x < r - 2 ∨ x = r - 2 ∨ x = r - 1 ∨ x = r ∨ x = r + 1 ∨
          x = r + 2 ∨ r + 2 < x) as Hxs by lia.
  assert (y < c - 2 ∨ y = c - 2 ∨ y = c - 1 ∨ y = c ∨ y = c + 1 ∨
          y = c + 2 ∨ c + 2 < y) as Hys by lia.
  destruct o; simpl;
    destruct Hxs as [?|[?|[?|[?|[?|[?|?]]]]]];
    destruct Hys as [?|[?|[?|[?|[?|[?|?]]]]]]; settle_pattern.
Qed.

(** ** Drawing *)

Section Drawing.
Variables height width : Z.
Variables (h : heap) (g : loc) (G : Grid).
Hypothesis Hsnap : snapshot h g = Some G.
Hypothesis Hshape : shape height width G.

Lemma draw_cell_paint (i j : Z) (log : list cmd) :
  0 ≤ i < height → 0 ≤ j < width →
  draw_cell g h i (Some log) j = Some (log ++ paint G i j).
Proof.
  intros Hi Hj. unfold draw_cell, paint. simpl.
  rewrite (get2_snapshot _ _ _ _ _ Hsnap).
  rewrite (cell_state_of _ _ _ _ _ Hshape Hi Hj). simpl.
  destruct (bool_decide (state_of G (i, j) = 1)); [done |].
  by rewrite app_nil_r.
Qed.

Lemma draw_row_paint (i : Z) (js : list Z) (log : list cmd) :
  0 ≤ i < height → Forall (λ j, 0 ≤ j < width) js →
  foldl (draw_cell g h i) (Some log) js =
  Some (log ++ mjoin (paint G i <$> js)).
Proof.
  intros Hi Hjs. revert log.
  induction Hjs as [|j js Hj _ IH]; intros log.
  - simpl. by rewrite app_nil_r.
  - cbn [foldl]. rewrite draw_cell_paint by done.
    rewrite IH, fmap_cons. simpl. by rewrite <- app_assoc.
Qed.

Lemma draw_rows_paint (ixs : list Z) (log : list cmd) :
  Forall (λ i, 0 ≤ i < height) ixs →
  foldl (λ log i, foldl (draw_cell g h i) log (seqZ 0 width)) (Some log) ixs =
  Some (log ++ mjoin ((λ i, mjoin (paint G i <$> seqZ 0 width)) <$> ixs)).
Proof.
  intros His. revert log.
  induction His as [|i ixs Hi _ IH]; intros log.
  - simpl. by rewrite app_nil_r.
  - cbn [foldl]. rewrite draw_row_paint; [| done |].
    + rewrite IH, fmap_cons. simpl. by rewrite <- app_assoc.
    + apply Forall_seqZ. intros j Hj. lia.
Qed.

(** The loops of [draw] issue exactly the calls of [render]. *)
Lemma draw_cells_render (log : list cmd) :
  draw_cells height width g h log = Some (log ++ render height width G).
Proof.
  unfold draw_cells, render. apply draw_rows_paint.
  apply Forall_seqZ. intros i Hi. lia.
Qed.

End Drawing.

(** ** Mounting *)

Lemma ceil_div_bounds (n : Z) :
  n ≤ cellSize * ceil_div n cellSize < n + cellSize.
Proof.
  unfold ceil_div, cellSize.
  pose proof (Z.div_mod (- n) 5 ltac:(lia)).
  pose proof (Z.mod_pos_bound (- n) 5 ltac:(lia)). lia.
Qed.

Lemma ceil_div_pos (n : Z) : 0 < ceil_div n cellSize ↔ 0 < n.
Proof. pose proof (ceil_div_bounds n). unfold cellSize in *. lia. Qed.

(** A mounted component holds a grid of the derived dimensions whose
    cells are the random draws. *)
Lemma mount_spec (innerWidth : Z) (rnd : Z → Z → bool) :
  - cellSize < innerWidth →
  ∃ s, mount innerWidth rnd = Some s ∧
    st_canvas s = Some {| cv_width := innerWidth; cv_height := 100 |} ∧
    st_ctx s = Some [] ∧
    st_width s = ceil_div innerWidth cellSize ∧ st_height s = 20 ∧
    snapshot (st_mem s) (st_grid s) =
      Some (mk_grid 20 (ceil_div innerWidth cellSize)
              (λ i j, if rnd i j then 1 else 0)).
Proof.
  intros Hw. unfold mount. simpl.
  change (ceil_div 100 cellSize) with 20.
  destruct (random_grid_spec 20 (ceil_div innerWidth cellSize) rnd ∅)
    as (g & h1 & rows & Hrun & _ & Hown); [lia | |].
  { intros _. pose proof (ceil_div_bounds innerWidth).
    unfold cellSize in *. lia. }
  rewrite Hrun. simpl. eexists. split; [reflexivity |]. simpl.
  repeat split. by eapply owned_snapshot.
Qed.

(** ** Properties of the game logic *)

Lemma binary_state_of (G : Grid) (p : Z * Z) :
  binary G → state_of G p = 0 ∨ state_of G p = 1.
Proof.
  intros Hbin. unfold state_of.
  destruct (cell G p.1 p.2) as [v|] eqn:E; simpl; [| by left].
  apply cell_Some in E as (_ & _ & row & Hrow & Hv).
  unfold binary in Hbin. rewrite Forall_lookup in Hbin.
  specialize (Hbin _ _ Hrow). rewrite Forall_lookup in Hbin.
  exact (Hbin _ _ Hv).
Qed.

Lemma binary_contribution (height width : Z) (G : Grid) (p : Z * Z) :
  binary G → 0 ≤ contribution height width G p ≤ 1.
Proof.
  intros Hbin. unfold contribution.
  destruct (decide (in_bounds height width p)); [| lia].
  destruct (binary_state_of G p Hbin) as [-> | ->]; lia.
Qed.

Lemma update_snapshot (height width : Z) (h : heap) (g : loc) (G : Grid) :
  snapshot h g = Some G → shape height width G →
  ∃ g' h', update height width g h = Some (g', h') ∧ h ⊆ h' ∧
    h !! g' = None ∧ snapshot h' g' = Some (next_grid height width G).
Proof.
  intros Hsnap Hshape.
  destruct (update_spec height width h g G Hsnap Hshape)
    as (g' & h' & rows & Hrun & Hsub & Hown).
  exists g', h'. split; [done |]. split; [done |].
  split; [apply Hown | by eapply owned_snapshot].
Qed.

Lemma shape_next_grid (height width : Z) (G : Grid) :
  shape height width G → shape height width (next_grid height width G).
Proof.
  intros Hs. destruct (shape_dims _ _ _ Hs). by apply shape_mk_grid.
Qed.

Ltac shape_tac := split; [reflexivity | repeat constructor].
Ltac binary_tac :=
  repeat first [ apply Forall_nil_2 | apply Forall_cons_2
               | left; reflexivity | right; reflexivity ].

(** C1: for a grid of binary cells and a cell inside it, the cell of the
    grid returned by [update] follows Conway's rule on the cell's state and
    on the count [countAliveNeighbors] gives for the input: a dead cell with
    exactly 3 live neighbours becomes alive, a live cell with 2 or 3 stays
    alive, a live cell with fewer than 2 or more than 3 dies, and a dead
    cell with another count than 3 stays dead. *)
Theorem update_conway (height width : Z) (h : heap) (g : loc) (G : Grid)
    (r c : Z) :
  snapshot h g = Some G → shape height width G → binary G →
  in_bounds height width (r, c) →
  ∃ g' h' G' v n v',
    update height width g h = Some (g', h') ∧
    snapshot h' g' = Some G' ∧
    cell G r c = Some v ∧
    countAliveNeighbors height width g r c h = Some n ∧
    cell G' r c = Some v' ∧
    (v = 0 ∨ v = 1) ∧
    (v = 0 → n = 3 → v' = 1) ∧
    (v = 1 → n = 2 ∨ n = 3 → v' = 1) ∧
    (v = 1 → n < 2 ∨ 3 < n → v' = 0) ∧
    (v = 0 → n ≠ 3 → v' = 0).
Proof.
  intros Hsnap Hshape Hbin [Hr Hc]. simpl in Hr, Hc.
  destruct (update_snapshot _ _ _ _ _ Hsnap Hshape)
    as (g' & h' & Hrun & _ & _ & Hsnap').
  exists g', h', (next_grid height width G), (state_of G (r, c)),
    (countLiveNeighbors height width G (r, c)),
    (next_state (state_of G (r, c)) (countLiveNeighbors height width G (r, c))).
  split; [done |]. split; [done |].
  split; [by eapply cell_state_of |].
  split; [by eapply countAliveNeighbors_snapshot |].
  split; [unfold next_grid; by rewrite cell_mk_grid |].
  split; [by apply binary_state_of |].
  unfold next_state.
  repeat split; intros -> Hn; repeat case_bool_decide; simpl; lia.
Qed.

Lemma update_conway_witness :
  ∃ g' h' G' v n v',
    update 3 3 (store_of column3).1 (store_of column3).2 = Some (g', h') ∧
    snapshot h' g' = Some G' ∧
    cell column3 1 0 = Some v ∧
    countAliveNeighbors 3 3 (store_of column3).1 1 0 (store_of column3).2
      = Some n ∧
    cell G' 1 0 = Some v' ∧
    (v = 0 ∨ v = 1) ∧
    (v = 0 → n = 3 → v' = 1) ∧
    (v = 1 → n = 2 ∨ n = 3 → v' = 1) ∧
    (v = 1 → n < 2 ∨ 3 < n → v' = 0) ∧
    (v = 0 → n ≠ 3 → v' = 0).
Proof.
  apply (update_conway 3 3 (store_of column3).2 (store_of column3).1
           column3 1 0).
  - vm_compute. reflexivity.
  - shape_tac.
  - binary_tac.
  - unfold in_bounds. simpl. lia.
Defined.

(** C2: for a grid of binary cells and a coordinate inside it,
    [countAliveNeighbors] returns the sum of the states of exactly those of
    the 8 adjacent coordinates that lie within [0, height) x [0, width);
    coordinates outside contribute nothing, the cell itself is not among
    the 8, and the result is between 0 and 8. *)
Theorem countAliveNeighbors_sum (height width : Z) (h : heap) (g : loc)
    (G : Grid) (x y : Z) :
  snapshot h g = Some G → shape height width G → binary G →
  in_bounds height width (x, y) →
  countAliveNeighbors height width g x y h =
    Some (sumZ (state_of G <$>
                  filter (in_bounds height width) (adjacent (x, y)))) ∧
  length (adjacent (x, y)) = 8%nat ∧
  ((x, y) ∉ adjacent (x, y)) ∧
  0 ≤ sumZ (state_of G <$>
              filter (in_bounds height width) (adjacent (x, y))) ≤ 8.
Proof.
  intros Hsnap Hshape Hbin _.
  split; [by eapply countAliveNeighbors_snapshot |].
  split; [reflexivity |]. split.
  - unfold adjacent. simpl. rewrite !elem_of_cons, elem_of_nil.
    intros [H|[H|[H|[H|[H|[H|[H|[H|[]]]]]]]]]; injection H; lia.
  - change (0 ≤ countLiveNeighbors height width G (x, y) ≤ 8).
    rewrite countLiveNeighbors_expand.
    pose proof (binary_contribution height width G (x - 1, y - 1) Hbin).
    pose proof (binary_contribution height width G (x - 1, y) Hbin).
    pose proof (binary_contribution height width G (x - 1, y + 1) Hbin).
    pose proof (binary_contribution height width G (x, y - 1) Hbin).
    pose proof (binary_contribution height width G (x, y + 1) Hbin).
    pose proof (binary_contribution height width G (x + 1, y - 1) Hbin).
    pose proof (binary_contribution height width G (x + 1, y) Hbin).
    pose proof (binary_contribution height width G (x + 1, y + 1) Hbin).
    lia.
Qed.

Lemma countAliveNeighbors_sum_witness :
  countAliveNeighbors 3 3 (store_of column3).1 0 0 (store_of column3).2 =
    Some (sumZ (state_of column3 <$>
                  filter (in_bounds 3 3) (adjacent (0, 0)))) ∧
  length (adjacent (0, 0)) = 8%nat ∧
  ((0, 0) ∉ adjacent (0, 0)) ∧
  0 ≤ sumZ (state_of column3 <$>
              filter (in_bounds 3 3) (adjacent (0, 0))) ≤ 8.
Proof.
  apply (countAliveNeighbors_sum 3 3 (store_of column3).2
           (store_of column3).1 column3 0 0).
  - vm_compute. reflexivity.
  - shape_tac.
  - binary_tac.
  - unfold in_bounds. simpl. lia.
Defined.

(** C3: [update] does not mutate its input: every object of the store it
    starts from, so every cell of the input grid, is as before; the result
    is written to newly allocated objects (the outer array and each row),
    and has the dimensions height x width. *)
Theorem update_leaves_input (height width : Z) (h : heap) (g : loc)
    (G : Grid) :
  snapshot h g = Some G → shape height width G →
  ∃ g' h' rows G',
    update height width g h = Some (g', h') ∧
    (∀ l arr, h !! l = Some arr → h' !! l = Some arr) ∧
    snapshot h' g = Some G ∧
    (∀ x y, get2 g x y h' = get2 g x y h) ∧
    h !! g' = None ∧
    h' !! g' = Some (VRef <$> rows) ∧
    Forall (λ l, h !! l = None) rows ∧
    snapshot h' g' = Some G' ∧
    shape height width G'.
Proof.
  intros Hsnap Hshape.
  destruct (update_spec height width h g G Hsnap Hshape)
    as (g' & h' & rows & Hrun & Hsub & Hown).
  pose proof (snapshot_mono _ _ _ _ Hsub Hsnap) as Hsnap'.
  exists g', h', rows, (next_grid height width G).
  split; [done |].
  split; [intros l arr Hl; exact (lookup_weaken _ _ _ _ Hl Hsub) |].
  split; [done |].
  split.
  { intros x y. by rewrite (get2_snapshot _ _ _ _ _ Hsnap'),
      (get2_snapshot _ _ _ _ _ Hsnap). }
  destruct Hown as (Hg' & Hnd & Hgr & Hg0 & Hfr & Hrows).
  split; [done |]. split; [done |]. split; [done |].
  split; [| by apply shape_next_grid].
  eapply owned_snapshot. by repeat split.
Qed.

Lemma update_leaves_input_witness :
  ∃ g' h' rows G',
    update 3 3 (store_of column3).1 (store_of column3).2 = Some (g', h') ∧
    (∀ l arr, (store_of column3).2 !! l = Some arr → h' !! l = Some arr) ∧
    snapshot h' (store_of column3).1 = Some column3 ∧
    (∀ x y, get2 (store_of column3).1 x y h' =
            get2 (store_of column3).1 x y (store_of column3).2) ∧
    (store_of column3).2 !! g' = None ∧
    h' !! g' = Some (VRef <$> rows) ∧
    Forall (λ l, (store_of column3).2 !! l = None) rows ∧
    snapshot h' g' = Some G' ∧
    shape 3 3 G'.
Proof.
  apply (update_leaves_input 3 3 (store_of column3).2 (store_of column3).1
           column3).
  - vm_compute. reflexivity.
  - shape_tac.
Defined.

(** C7: on a grid of at least 4 x 4 cells that holds a 2 x 2 block of
    alive cells and only dead cells elsewhere, [update] returns a grid
    identical to its input. *)
Theorem update_block (height width r c : Z) (h : heap) (g : loc) :
  4 ≤ height → 4 ≤ width →
  0 ≤ r → r + 1 < height → 0 ≤ c → c + 1 < width →
  snapshot h g = Some (block height width r c) →
  ∃ g' h', update height width g h = Some (g', h') ∧
    snapshot h' g' = Some (block height width r c).
Proof.
  intros Hh Hw Hr Hr' Hc Hc' Hsnap.
  destruct (update_snapshot height width h g _ Hsnap)
    as (g' & h' & Hrun & _ & _ & Hsnap').
  { apply shape_mk_grid; lia. }
  exists g', h'. split; [done |].
  by rewrite next_grid_block in Hsnap'.
Qed.

Lemma update_block_witness :
  ∃ g' h', update 4 4 (store_of block4).1 (store_of block4).2 = Some (g', h') ∧
    snapshot h' g' = Some (block 4 4 1 1).
Proof.
  apply (update_block 4 4 1 1 (store_of block4).2 (store_of block4).1);
    [lia | lia | lia | lia | lia | lia |].
  vm_compute. reflexivity.
Defined.

(** A blinker and its quarter turn differ: the cell left of the centre is
    alive in the horizontal one and dead in the vertical one. *)
Lemma blinker_turn_ne (height width : Z) (o : orientation) (r c : Z) :
  1 ≤ r → r + 1 < height → 1 ≤ c → c + 1 < width →
  blinker height width (turn o) r c ≠ blinker height width o r c.
Proof.
  intros Hr Hr' Hc Hc' Heq.
  apply (f_equal (λ G, cell G r (c - 1))) in Heq.
  unfold blinker in Heq. rewrite !cell_mk_grid in Heq by lia.
  destruct o; simpl in Heq.
  - rewrite (bool_decide_eq_false_2 (c - 1 = c ∧ r - 1 ≤ r ≤ r + 1)) in Heq
      by lia.
    rewrite (bool_decide_eq_true_2 (r = r ∧ c - 1 ≤ c - 1 ≤ c + 1)) in Heq
      by lia.
    discriminate Heq.
  - rewrite (bool_decide_eq_true_2 (r = r ∧ c - 1 ≤ c - 1 ≤ c + 1)) in Heq
      by lia.
    rewrite (bool_decide_eq_false_2 (c - 1 = c ∧ r - 1 ≤ r ≤ r + 1)) in Heq
      by lia.
    discriminate Heq.
Qed.

(** C8: on a grid of at least 5 x 5 cells that holds a blinker (3 alive
    cells in a row, horizontal or vertical, whose centre is not on the
    boundary) and only dead cells elsewhere, one application of [update]
    returns the blinker turned by a quarter, which is another grid than
    the input, and two applications return the original configuration:
    an oscillator of period 2. *)
Theorem update_blinker_twice (height width : Z) (o : orientation) (r c : Z)
    (h : heap) (g : loc) :
  5 ≤ height → 5 ≤ width →
  1 ≤ r → r + 1 < height → 1 ≤ c → c + 1 < width →
  snapshot h g = Some (blinker height width o r c) →
  ∃ g1 h1 g2 h2,
    update height width g h = Some (g1, h1) ∧
    snapshot h1 g1 = Some (blinker height width (turn o) r c) ∧
    blinker height width (turn o) r c ≠ blinker height width o r c ∧
    update height width g1 h1 = Some (g2, h2) ∧
    snapshot h2 g2 = Some (blinker height width o r c).
Proof.
  intros Hh Hw Hr Hr' Hc Hc' Hsnap.
  destruct (update_snapshot height width h g _ Hsnap)
    as (g1 & h1 & Hrun1 & _ & _ & Hsnap1).
  { apply shape_mk_grid; lia. }
  rewrite next_grid_blinker in Hsnap1 by done.
  destruct (update_snapshot height width h1 g1 _ Hsnap1)
    as (g2 & h2 & Hrun2 & _ & _ & Hsnap2).
  { apply shape_mk_grid; lia. }
  rewrite next_grid_blinker in Hsnap2 by done.
  exists g1, h1, g2, h2. split; [done |]. split; [done |].
  split; [by apply blinker_turn_ne |]. split; [done |].
  by destruct o.
Qed.

Lemma update_blinker_twice_witness :
  ∃ g1 h1 g2 h2,
    update 5 5 (store_of row5).1 (store_of row5).2 = Some (g1, h1) ∧
    snapshot h1 g1 = Some (blinker 5 5 Vertical 2 2) ∧
    blinker 5 5 Vertical 2 2 ≠ blinker 5 5 Horizontal 2 2 ∧
    update 5 5 g1 h1 = Some (g2, h2) ∧
    snapshot h2 g2 = Some (blinker 5 5 Horizontal 2 2).
Proof.
  apply (update_blinker_twice 5 5 Horizontal 2 2 (store_of row5).2
           (store_of row5).1); [lia | lia | lia | lia | lia | lia |].
  vm_compute. reflexivity.
Defined.

(** C9: for all dimensions, [update] maps the grid whose cells are all
    dead to the grid whose cells are all dead. *)
Theorem update_dead (height width : Z) (h : heap) (g : loc) :
  0 ≤ height → 0 ≤ width →
  snapshot h g = Some (dead height width) →
  ∃ g' h', update height width g h = Some (g', h') ∧
    snapshot h' g' = Some (dead height width).
Proof.
  intros Hh Hw Hsnap.
  destruct (update_snapshot height width h g _ Hsnap)
    as (g' & h' & Hrun & _ & _ & Hsnap').
  { apply shape_mk_grid; lia. }
  exists g', h'. split; [done |].
  by rewrite next_grid_dead in Hsnap'.
Qed.

Lemma update_dead_witness :
  ∃ g' h',
    update 2 3 (store_of (dead 2 3)).1 (store_of (dead 2 3)).2 = Some (g', h') ∧
    snapshot h' g' = Some (dead 2 3).
Proof.
  apply (update_dead 2 3 (store_of (dead 2 3)).2 (store_of (dead 2 3)).1);
    [lia | lia |].
  vm_compute. reflexivity.
Defined.

(** ** Properties of the component *)

(** Gives the state of the component mounted at a window width (seeded
    with alive cells) for an existential, and proves that it is. *)
Ltac exists_mounted w :=
  let r := eval vm_compute in (mount w all_alive) in
  lazymatch r with
  | Some ?s => exists s; split; [vm_compute; reflexivity |]
  end.

(** C4, as worded, fails: on a canvas 5 pixels wide seeded with alive
    cells only, the first tick draws all 20 cells, while the generation it
    computed has lost the two end cells. *)
Lemma draws_new_generation_fails :
  ∃ s, mount 5 all_alive = Some s ∧ ¬ draws_new_generation s.
Proof.
  exists_mounted 5. intros H.
  lazymatch goal with
  | H : draws_new_generation ?s |- _ =>
      let r := eval vm_compute in (step s Tick) in
      lazymatch r with
      | Some ?s' =>
          let r' := eval vm_compute in (snapshot (st_mem s') (st_grid s')) in
          lazymatch r' with
          | Some ?G' =>
              assert (st_ctx s' =
                      Some ([] ++ ClearRect 0 0 5 100 :: render 20 1 G'))
                as Hctx
                by (apply (H s' [] {| cv_width := 5; cv_height := 100 |} G');
                    vm_compute; reflexivity)
          end
      end
  end.
  vm_compute in Hctx. discriminate Hctx.
Qed.

(** C4, amended: a tick first draws the grid as it stands (clearing the
    canvas, then one square per alive cell), and then replaces it by the
    grid [update] computes from it; the new generation is drawn by the
    following tick. *)
Theorem draw_then_update (s : state) (log : list cmd) (cv : canvas_t)
    (G : Grid) :
  st_ctx s = Some log → st_canvas s = Some cv →
  snapshot (st_mem s) (st_grid s) = Some G →
  shape (st_height s) (st_width s) G →
  ∃ s', step s Tick = Some s' ∧
    st_ctx s' = Some (log ++ ClearRect 0 0 (cv_width cv) (cv_height cv)
                          :: render (st_height s) (st_width s) G) ∧
    snapshot (st_mem s') (st_grid s') =
      Some (next_grid (st_height s) (st_width s) G) ∧
    st_canvas s' = st_canvas s ∧
    st_width s' = st_width s ∧ st_height s' = st_height s.
Proof.
  intros Hctx Hcv Hsnap Hshape. simpl. unfold draw. rewrite Hctx, Hcv.
  rewrite (draw_cells_render _ _ _ _ _ Hsnap Hshape). simpl.
  destruct (update_snapshot _ _ _ _ _ Hsnap Hshape)
    as (g' & h' & -> & _ & _ & Hsnap').
  simpl. eexists. split; [reflexivity |]. simpl.
  rewrite <- app_assoc. by repeat split.
Qed.

Lemma draw_then_update_witness :
  ∃ s', step column3_state Tick = Some s' ∧
    st_ctx s' = Some ([] ++ ClearRect 0 0 15 15 :: render 3 3 column3) ∧
    snapshot (st_mem s') (st_grid s') = Some (next_grid 3 3 column3) ∧
    st_canvas s' = st_canvas column3_state ∧
    st_width s' = 3 ∧ st_height s' = 3.
Proof.
  apply (draw_then_update column3_state [] {| cv_width := 15; cv_height := 15 |}
           column3).
  - reflexivity.
  - reflexivity.
  - vm_compute. reflexivity.
  - shape_tac.
Defined.

(** C5, as worded, fails: a component mounted at a window width of 10 has
    a grid 2 cells wide, and still has it after a resize to width 100. *)
Lemma resize_recreates_grid_fails :
  ∃ s, mount 10 all_alive = Some s ∧ ¬ resize_recreates_grid s 100.
Proof.
  exists_mounted 10. intros H.
  destruct (H _ eq_refl) as [Hw _]. vm_compute in Hw. discriminate Hw.
Qed.

(** C5, amended: a resize notification only sets the pixel size of the
    canvas (width to the window's inner width, height to 100); the grid,
    its cells and the recorded width and height stay as they are. *)
Theorem resize_only_sizes_canvas (s : state) (innerWidth : Z) :
  ∃ s', step s (Resize innerWidth) = Some s' ∧
    st_canvas s' =
      (λ _, {| cv_width := innerWidth; cv_height := 100 |}) <$> st_canvas s ∧
    st_grid s' = st_grid s ∧ st_mem s' = st_mem s ∧
    st_width s' = st_width s ∧ st_height s' = st_height s ∧
    st_ctx s' = st_ctx s.
Proof.
  exists (updateCanvasSize innerWidth s). split; [reflexivity |].
  unfold updateCanvasSize.
  destruct (st_canvas s) as [cv|] eqn:Hcv; simpl; rewrite ?Hcv; done.
Qed.

(** C6, as worded, fails: at a window width of 0 the grid has width 0
    (20 empty rows); nothing clamps it. *)
Lemma dimensions_positive_fails :
  ¬ dimensions_positive 0 ∧
  ∃ s, mount 0 all_alive = Some s ∧ st_width s = 0 ∧
    snapshot (st_mem s) (st_grid s) = Some (replicate 20 []).
Proof.
  split.
  - intros H.
    assert (∃ s, mount 0 all_alive = Some s ∧ st_width s = 0)
      as (s & Hs & Hw) by (exists_mounted 0; reflexivity).
    destruct (H all_alive s Hs) as [Hpos _]. lia.
  - exists_mounted 0. split; vm_compute; reflexivity.
Qed.

(** C6, amended: for every positive surface width the component mounts
    with positive grid dimensions, the width being the surface width
    divided by the cell pitch and rounded up, the height being 20; the
    grid has exactly these dimensions. *)
Theorem mount_dimensions (innerWidth : Z) (rnd : Z → Z → bool) :
  0 < innerWidth →
  ∃ s G, mount innerWidth rnd = Some s ∧
    st_width s = ceil_div innerWidth cellSize ∧
    innerWidth ≤ cellSize * st_width s < innerWidth + cellSize ∧
    st_height s = 20 ∧
    0 < st_width s ∧ 0 < st_height s ∧
    snapshot (st_mem s) (st_grid s) = Some G ∧
    shape (st_height s) (st_width s) G.
Proof.
  intros Hpos.
  destruct (mount_spec innerWidth rnd) as (s & Hm & _ & _ & Hw & Hh & Hsnap).
  { unfold cellSize. lia. }
  pose proof (ceil_div_bounds innerWidth) as Hb.
  pose proof (proj2 (ceil_div_pos innerWidth) Hpos) as Hp.
  eexists s, _. split; [done |]. rewrite Hw, Hh.
  split; [done |]. split; [done |]. split; [done |].
  split; [done |]. split; [done |]. split; [exact Hsnap |].
  apply shape_mk_grid; lia.
Qed.

Lemma mount_dimensions_witness :
  ∃ s G, mount 12 all_alive = Some s ∧
    st_width s = ceil_div 12 cellSize ∧
    12 ≤ cellSize * st_width s < 12 + cellSize ∧
    st_height s = 20 ∧
    0 < st_width s ∧ 0 < st_height s ∧
    snapshot (st_mem s) (st_grid s) = Some G ∧
    shape (st_height s) (st_width s) G.
Proof. apply (mount_dimensions 12 all_alive). lia. Defined.

(** C10: if the canvas or its 2D context is missing when a tick fires,
    [draw] returns at once: no call reaches a context, and the grid and
    the store are as before, so the generation does not advance. *)
Theorem draw_unavailable (s : state) :
  st_ctx s = None ∨ st_canvas s = None →
  step s Tick = Some s.
Proof.
  simpl. unfold draw.
  intros [H|H]; rewrite H; [done |]. by destruct (st_ctx s).
Qed.

Lemma draw_unavailable_witness : step detached_state Tick = Some detached_state.
Proof. apply (draw_unavailable detached_state). right. reflexivity. Defined.

(** ** Further properties of the game logic *)

Lemma next_state_binary (c n : Z) :
  c = 0 ∨ c = 1 → next_state c n = 0 ∨ next_state c n = 1.
Proof.
  intros Hc. unfold next_state.
  repeat case_bool_decide; simpl; lia.
Qed.

Lemma binary_mk_grid (height width : Z) (f : Z → Z → Z) :
  (∀ i j, 0 ≤ i < height → 0 ≤ j < width → f i j = 0 ∨ f i j = 1) →
  binary (mk_grid height width f).
Proof.
  intros Hf. unfold binary, mk_grid.
  apply Forall_fmap, Forall_forall. intros i Hi. simpl.
  apply Forall_fmap, Forall_forall. intros j Hj. simpl.
  apply elem_of_seqZ in Hi, Hj. apply Hf; lia.
Qed.

Lemma binary_next_grid (height width : Z) (G : Grid) :
  binary G → binary (next_grid height width G).
Proof.
  intros Hbin. apply binary_mk_grid. intros i j _ _.
  apply next_state_binary. by apply binary_state_of.
Qed.

Lemma binary_seed (height width : Z) (rnd : Z → Z → bool) :
  binary (seed height width rnd).
Proof.
  apply binary_mk_grid. intros i j _ _. destruct (rnd i j); auto.
Qed.

(** X1: [update] keeps the cells binary: from a grid of zeros and ones it
    returns a grid of zeros and ones of the same dimensions. *)
Theorem update_binary (height width : Z) (h : heap) (g : loc) (G : Grid) :
  snapshot h g = Some G → shape height width G → binary G →
  ∃ g' h' G', update height width g h = Some (g', h') ∧
    snapshot h' g' = Some G' ∧ shape height width G' ∧ binary G'.
Proof.
  intros Hsnap Hshape Hbin.
  destruct (update_snapshot _ _ _ _ _ Hsnap Hshape)
    as (g' & h' & Hrun & _ & _ & Hsnap').
  exists g', h', (next_grid height width G).
  split; [done |]. split; [done |].
  split; [by apply shape_next_grid | by apply binary_next_grid].
Qed.

Lemma update_binary_witness :
  ∃ g' h' G',
    update 3 3 (store_of column3).1 (store_of column3).2 = Some (g', h') ∧
    snapshot h' g' = Some G' ∧ shape 3 3 G' ∧ binary G'.
Proof.
  apply (update_binary 3 3 (store_of column3).2 (store_of column3).1 column3).
  - vm_compute. reflexivity.
  - shape_tac.
  - binary_tac.
Defined.

(** X2: the grid [update] returns never shares a row: its outer array and
    its [height] rows are pairwise distinct objects, each row an array of
    [width] numbers, whatever sharing the input grid has. *)
Theorem update_rows_distinct (height width : Z) (h : heap) (g : loc)
    (G : Grid) :
  snapshot h g = Some G → shape height width G →
  ∃ g' h' rows, update height width g h = Some (g', h') ∧
    h' !! g' = Some (VRef <$> rows) ∧
    NoDup (g' :: rows) ∧
    Z.of_nat (length rows) = height ∧
    Forall (λ l, ∃ r, h' !! l = Some (VNum <$> r) ∧
                      Z.of_nat (length r) = width) rows.
Proof.
  intros Hsnap Hshape.
  destruct (update_spec height width h g G Hsnap Hshape)
    as (g' & h' & rows & Hrun & _ & Hg' & Hnd & Hgr & _ & _ & Hrows).
  pose proof (shape_next_grid _ _ _ Hshape) as [Hlen Hw].
  exists g', h', rows. split; [done |]. split; [done |].
  split; [by constructor |].
  split; [by rewrite (Forall2_length _ _ _ Hrows) |].
  apply Forall_lookup. intros k l Hl.
  destruct (Forall2_lookup_l _ _ _ _ _ Hrows Hl) as (r & Hr & Hlr).
  exists r. split; [done |].
  rewrite Forall_lookup in Hw. exact (Hw _ _ Hr).
Qed.

Lemma update_rows_distinct_witness :
  ∃ g' h' rows,
    update 3 3 (aliased_store [0; 1; 0] 3).1 (aliased_store [0; 1; 0] 3).2
      = Some (g', h') ∧
    h' !! g' = Some (VRef <$> rows) ∧
    NoDup (g' :: rows) ∧
    Z.of_nat (length rows) = 3 ∧
    Forall (λ l, ∃ r, h' !! l = Some (VNum <$> r) ∧
                      Z.of_nat (length r) = 3) rows.
Proof.
  apply (update_rows_distinct 3 3 (aliased_store [0; 1; 0] 3).2
           (aliased_store [0; 1; 0] 3).1 column3).
  - vm_compute. reflexivity.
  - shape_tac.
Defined.

Lemma contribution_agree (height width : Z) (G1 G2 : Grid) (p : Z * Z) :
  cell G1 p.1 p.2 = cell G2 p.1 p.2 →
  contribution height width G1 p = contribution height width G2 p.
Proof. unfold contribution, state_of. by intros ->. Qed.

(** X3: the new state of a cell depends only on the cell and the
    coordinates next to it: on two grids that agree on the 3 x 3 square
    around a cell, [update] gives that cell the same state. *)
Theorem update_local (height width : Z) (h1 h2 : heap) (g1 g2 : loc)
    (G1 G2 : Grid) (r c : Z) :
  snapshot h1 g1 = Some G1 → shape height width G1 →
  snapshot h2 g2 = Some G2 → shape height width G2 →
  in_bounds height width (r, c) → agree_around G1 G2 r c →
  ∃ g1' h1' g2' h2' v,
    update height width g1 h1 = Some (g1', h1') ∧
    update height width g2 h2 = Some (g2', h2') ∧
    get2 g1' r c h1' = Some v ∧ get2 g2' r c h2' = Some v.
Proof.
  intros Hs1 Hsh1 Hs2 Hsh2 [Hr Hc] Hagree. simpl in Hr, Hc.
  destruct (update_snapshot _ _ _ _ _ Hs1 Hsh1)
    as (g1' & h1' & Hrun1 & _ & _ & Hsnap1).
  destruct (update_snapshot _ _ _ _ _ Hs2 Hsh2)
    as (g2' & h2' & Hrun2 & _ & _ & Hsnap2).
  exists g1', h1', g2', h2', (next_cell height width G1 r c).
  split; [done |]. split; [done |].
  rewrite (get2_snapshot _ _ _ _ _ Hsnap1), (get2_snapshot _ _ _ _ _ Hsnap2).
  unfold next_grid. rewrite !cell_mk_grid by done.
  split; [done |]. f_equal. unfold next_cell.
  rewrite !countLiveNeighbors_expand.
  rewrite !(contribution_agree height width G1 G2)
    by (apply Hagree; simpl; lia).
  unfold state_of. simpl. rewrite (Hagree r c) by lia. done.
Qed.

Lemma update_local_witness :
  ∃ g1' h1' g2' h2' v,
    update 3 3 (store_of column3).1 (store_of column3).2 = Some (g1', h1') ∧
    update 3 3 (store_of [[0; 1; 0]; [0; 1; 0]; [0; 1; 1]]).1
               (store_of [[0; 1; 0]; [0; 1; 0]; [0; 1; 1]]).2
      = Some (g2', h2') ∧
    get2 g1' 0 0 h1' = Some v ∧ get2 g2' 0 0 h2' = Some v.
Proof.
  apply (update_local 3 3 (store_of column3).2
           (store_of [[0; 1; 0]; [0; 1; 0]; [0; 1; 1]]).2
           (store_of column3).1
           (store_of [[0; 1; 0]; [0; 1; 0]; [0; 1; 1]]).1
           column3 [[0; 1; 0]; [0; 1; 0]; [0; 1; 1]] 0 0).
  - vm_compute. reflexivity.
  - shape_tac.
  - vm_compute. reflexivity.
  - shape_tac.
  - unfold in_bounds. simpl. lia.
  - intros i j Hi Hj.
    assert (i = -1 ∨ i = 0 ∨ i = 1) as [->|[->| ->]] by lia;
      assert (j = -1 ∨ j = 0 ∨ j = 1) as [->|[->| ->]] by lia;
      reflexivity.
Defined.

(** X4: [countAliveNeighbors] is safe at every coordinate, inside the
    grid or not: it reads nothing outside the arrays and returns the sum
    over the adjacent coordinates inside the grid, which is 0 when the
    coordinate is two or more steps outside. *)
Theorem countAliveNeighbors_anywhere (height width : Z) (h : heap) (g : loc)
    (G : Grid) (x y : Z) :
  snapshot h g = Some G → shape height width G →
  countAliveNeighbors height width g x y h =
    Some (sumZ (state_of G <$>
                  filter (in_bounds height width) (adjacent (x, y)))) ∧
  (x < -1 ∨ height < x ∨ y < -1 ∨ width < y →
   countAliveNeighbors height width g x y h = Some 0).
Proof.
  intros Hsnap Hshape.
  rewrite (countAliveNeighbors_snapshot _ _ _ _ _ Hsnap Hshape).
  split; [done |]. intros Hfar. f_equal.
  rewrite countLiveNeighbors_expand. unfold contribution.
  rewrite !decide_False by (unfold in_bounds; simpl; lia). done.
Qed.

Lemma countAliveNeighbors_anywhere_witness :
  countAliveNeighbors 3 3 (store_of column3).1 (-2) 1 (store_of column3).2 =
    Some (sumZ (state_of column3 <$>
                  filter (in_bounds 3 3) (adjacent (-2, 1)))) ∧
  (-2 < -1 ∨ 3 < -2 ∨ 1 < -1 ∨ 3 < 1 →
   countAliveNeighbors 3 3 (store_of column3).1 (-2) 1 (store_of column3).2
     = Some 0).
Proof.
  apply (countAliveNeighbors_anywhere 3 3 (store_of column3).2
           (store_of column3).1 column3 (-2) 1).
  - vm_compute. reflexivity.
  - shape_tac.
Defined.

Lemma next_grid_single (height width r c : Z) :
  0 ≤ r < height → 0 ≤ c < width →
  next_grid height width (single height width r c) = dead height width.
Proof.
  intros Hr Hc. apply next_grid_mk_grid. intros x y Hx Hy.
  assert (x < r - 1 ∨ x = r - 1 ∨ x = r ∨ x = r + 1 ∨ r + 1 < x) as Hxs by lia.
  assert (y < c - 1 ∨ y = c - 1 ∨ y = c ∨ y = c + 1 ∨ c + 1 < y) as Hys by lia.
  destruct Hxs as [?|[?|[?|[?|?]]]]; destruct Hys as [?|[?|[?|[?|?]]]];
    settle_pattern.
Qed.

(** X5: a lone alive cell dies: on a grid of any dimensions whose only
    alive cell is at some coordinate, [update] returns the all-dead
    grid. *)
Theorem update_single (height width r c : Z) (h : heap) (g : loc) :
  0 ≤ r < height → 0 ≤ c < width →
  snapshot h g = Some (single height width r c) →
  ∃ g' h', update height width g h = Some (g', h') ∧
    snapshot h' g' = Some (dead height width).
Proof.
  intros Hr Hc Hsnap.
  destruct (update_snapshot height width h g _ Hsnap)
    as (g' & h' & Hrun & _ & _ & Hsnap').
  { apply shape_mk_grid; lia. }
  exists g', h'. split; [done |].
  by rewrite next_grid_single in Hsnap'.
Qed.

Lemma update_single_witness :
  ∃ g' h',
    update 3 3 (store_of (single 3 3 0 2)).1 (store_of (single 3 3 0 2)).2
      = Some (g', h') ∧
    snapshot h' g' = Some (dead 3 3).
Proof.
  apply (update_single 3 3 0 2 (store_of (single 3 3 0 2)).2
           (store_of (single 3 3 0 2)).1); [lia | lia |].
  vm_compute. reflexivity.
Defined.

(** ** Further properties of the component *)

Lemma elem_of_paint (G : Grid) (i j : Z) (c : cmd) :
  c ∈ paint G i j ↔
  state_of G (i, j) = 1 ∧
  (c = SetFillStyle "#E5E4E2" ∨
   c = FillRect (j * cellSize) (i * cellSize) cellSize cellSize).
Proof.
  unfold paint. case_bool_decide as Hst.
  - rewrite !elem_of_cons, elem_of_nil. split.
    + intros [->|[->|[]]]; auto.
    + intros [_ [->| ->]]; auto.
  - rewrite elem_of_nil. split; [done |]. by intros [? _].
Qed.

Lemma elem_of_render (height width : Z) (G : Grid) (c : cmd) :
  c ∈ render height width G ↔
  ∃ i j, 0 ≤ i < height ∧ 0 ≤ j < width ∧ c ∈ paint G i j.
Proof.
  unfold render. rewrite list_elem_of_join. split.
  - intros (l & Hc & Hl). apply list_elem_of_fmap in Hl as (i & -> & Hi).
    apply list_elem_of_join in Hc as (l' & Hc & Hl').
    apply list_elem_of_fmap in Hl' as (j & -> & Hj).
    apply elem_of_seqZ in Hi, Hj. exists i, j. repeat split; (done || lia).
  - intros (i & j & Hi & Hj & Hc).
    exists (mjoin (paint G i <$> seqZ 0 width)). split.
    + apply list_elem_of_join. exists (paint G i j). split; [done |].
      apply list_elem_of_fmap. exists j. split; [done |].
      apply elem_of_seqZ. lia.
    + apply list_elem_of_fmap. exists i. split; [done |].
      apply elem_of_seqZ. lia.
Qed.

(** What a tick does when the canvas and its context are there. *)
Lemma draw_available (s : state) (log : list cmd) (cv : canvas_t) (G : Grid) :
  st_ctx s = Some log → st_canvas s = Some cv →
  snapshot (st_mem s) (st_grid s) = Some G →
  shape (st_height s) (st_width s) G →
  ∃ g' h',
    snapshot h' g' = Some (next_grid (st_height s) (st_width s) G) ∧
    draw s = Some
      {| st_canvas := Some cv;
         st_ctx := Some (log ++ ClearRect 0 0 (cv_width cv) (cv_height cv)
                              :: render (st_height s) (st_width s) G);
         st_width := st_width s; st_height := st_height s;
         st_grid := g'; st_mem := h' |}.
Proof.
  intros Hctx Hcv Hsnap Hshape. unfold draw. rewrite Hctx, Hcv.
  rewrite (draw_cells_render _ _ _ _ _ Hsnap Hshape). simpl.
  destruct (update_snapshot _ _ _ _ _ Hsnap Hshape)
    as (g' & h' & -> & _ & _ & Hsnap').
  exists g', h'. split; [done |]. simpl. by rewrite <- app_assoc.
Qed.

(** X6: a tick draws exactly the alive cells: after the one [clearRect]
    over the whole canvas, the context receives a [fillRect] for a square
    of side [cellSize] at [(j * cellSize, i * cellSize)] exactly for the
    cells [(i, j)] of the grid that hold 1, and apart from these only
    assignments of the one fill colour. *)
Theorem tick_draws_alive_cells (s : state) (log : list cmd) (cv : canvas_t)
    (G : Grid) :
  st_ctx s = Some log → st_canvas s = Some cv →
  snapshot (st_mem s) (st_grid s) = Some G →
  shape (st_height s) (st_width s) G →
  ∃ s' cmds, step s Tick = Some s' ∧
    st_ctx s' =
      Some (log ++ ClearRect 0 0 (cv_width cv) (cv_height cv) :: cmds) ∧
    (∀ x y w h, FillRect x y w h ∈ cmds ↔
       ∃ i j, in_bounds (st_height s) (st_width s) (i, j) ∧
         get2 (st_grid s) i j (st_mem s) = Some 1 ∧
         x = j * cellSize ∧ y = i * cellSize ∧
         w = cellSize ∧ h = cellSize) ∧
    (∀ c, c ∈ cmds →
       c = SetFillStyle "#E5E4E2" ∨
       ∃ x y, c = FillRect x y cellSize cellSize).
Proof.
  intros Hctx Hcv Hsnap Hshape.
  destruct (draw_available s log cv G Hctx Hcv Hsnap Hshape)
    as (g' & h' & _ & Hdraw).
  eexists _, (render (st_height s) (st_width s) G).
  split; [exact Hdraw |]. split; [done |]. split.
  - intros x y w h. rewrite elem_of_render. split.
    + intros (i & j & Hi & Hj & Hc). apply elem_of_paint in Hc as [Hst Hc].
      destruct Hc as [Hc|Hc]; [done |]. injection Hc as -> -> -> ->.
      exists i, j. split; [done |].
      rewrite (get2_snapshot _ _ _ _ _ Hsnap).
      rewrite (cell_state_of _ _ _ _ _ Hshape Hi Hj), Hst. done.
    + intros (i & j & [Hi Hj] & Hget & -> & -> & -> & ->).
      simpl in Hi, Hj. exists i, j. split; [done |]. split; [done |].
      apply elem_of_paint. split; [| by right].
      rewrite (get2_snapshot _ _ _ _ _ Hsnap) in Hget.
      by apply state_of_cell.
  - intros c Hc. apply elem_of_render in Hc as (i & j & _ & _ & Hc).
    apply elem_of_paint in Hc as [_ [->| ->]]; eauto.
Qed.

Lemma tick_draws_alive_cells_witness :
  ∃ s' cmds, step column3_state Tick = Some s' ∧
    st_ctx s' = Some ([] ++ ClearRect 0 0 15 15 :: cmds) ∧
    (∀ x y w h, FillRect x y w h ∈ cmds ↔
       ∃ i j, in_bounds 3 3 (i, j) ∧
         get2 (store_of column3).1 i j (store_of column3).2 = Some 1 ∧
         x = j * cellSize ∧ y = i * cellSize ∧
         w = cellSize ∧ h = cellSize) ∧
    (∀ c, c ∈ cmds →
       c = SetFillStyle "#E5E4E2" ∨
       ∃ x y, c = FillRect x y cellSize cellSize).
Proof.
  apply (tick_draws_alive_cells column3_state []
           {| cv_width := 15; cv_height := 15 |} column3).
  - reflexivity.
  - reflexivity.
  - vm_compute. reflexivity.
  - shape_tac.
Defined.

(** The state of a running component: canvas and context in place, a
    grid of the recorded dimensions in the store. *)
Lemma run_generations (es : list event) (s : state) (G : Grid) :
  is_Some (st_ctx s) → is_Some (st_canvas s) →
  snapshot (st_mem s) (st_grid s) = Some G →
  shape (st_height s) (st_width s) G →
  ∃ s', run s es = Some s' ∧
    is_Some (st_ctx s') ∧ is_Some (st_canvas s') ∧
    st_width s' = st_width s ∧ st_height s' = st_height s ∧
    snapshot (st_mem s') (st_grid s') =
      Some (Nat.iter (ticks es) (next_grid (st_height s) (st_width s)) G).
Proof.
  revert s G. induction es as [|e es IH]; intros s G Hctx Hcv Hsnap Hshape.
  - exists s. by repeat split.
  - destruct Hctx as [log Hctx], Hcv as [cv Hcv]. destruct e as [|w].
    + destruct (draw_available s log cv G Hctx Hcv Hsnap Hshape)
        as (g' & h' & Hsnap' & Hdraw).
      cbn [ticks]. rewrite Nat.iter_succ_r.
      simpl. rewrite Hdraw. simpl.
      match goal with |- context [run ?s1 es] => set (s1' := s1) end.
      destruct (IH s1' (next_grid (st_height s) (st_width s) G))
        as (s' & Hrun & Hc & Hv & Hw & Hh & Hs').
      * by eexists.
      * by eexists.
      * exact Hsnap'.
      * simpl. by apply shape_next_grid.
      * exists s'. split; [exact Hrun |]. split; [done |]. split; [done |].
        split; [exact Hw |]. split; [exact Hh |].
        exact Hs'.
    + simpl.
      destruct (IH (updateCanvasSize w s) G)
        as (s' & Hrun & Hc & Hv & Hw & Hh & Hs').
      * unfold updateCanvasSize. rewrite Hcv. simpl. by eexists.
      * unfold updateCanvasSize. rewrite Hcv. simpl. by eexists.
      * unfold updateCanvasSize. by rewrite Hcv.
      * unfold updateCanvasSize. by rewrite Hcv.
      * exists s'. unfold updateCanvasSize in *. rewrite Hcv in *.
        simpl in *. by repeat split.
Qed.

(** X7: once mounted (at a window width that is not negative), the
    component never faults: for every sequence of ticks and resizes each
    tick runs to its end without an access outside an array, the canvas
    and the grid dimensions fixed at mount time stay, resizes leave the
    evolution alone, and after the sequence the grid is the seed advanced
    by as many generations as there were ticks, with cells still 0 or 1. *)
Theorem run_mounted (innerWidth : Z) (rnd : Z → Z → bool) (es : list event) :
  0 ≤ innerWidth →
  ∃ s0 s G, mount innerWidth rnd = Some s0 ∧ run s0 es = Some s ∧
    st_width s = ceil_div innerWidth cellSize ∧ st_height s = 20 ∧
    snapshot (st_mem s) (st_grid s) = Some G ∧
    G = Nat.iter (ticks es) (next_grid 20 (ceil_div innerWidth cellSize))
          (seed 20 (ceil_div innerWidth cellSize) rnd) ∧
    shape 20 (ceil_div innerWidth cellSize) G ∧ binary G.
Proof.
  intros Hw.
  destruct (mount_spec innerWidth rnd)
    as (s0 & Hm & Hcv & Hctx & Hw0 & Hh0 & Hsnap0); [unfold cellSize; lia |].
  pose proof (ceil_div_bounds innerWidth) as Hb. unfold cellSize in Hb.
  assert (shape 20 (ceil_div innerWidth cellSize)
            (seed 20 (ceil_div innerWidth cellSize) rnd)) as Hshape0
    by (apply shape_mk_grid; unfold cellSize; lia).
  destruct (run_generations es s0
              (seed 20 (ceil_div innerWidth cellSize) rnd))
    as (s & Hrun & _ & _ & Hws & Hhs & Hsnap).
  { rewrite Hctx. by eexists. }
  { rewrite Hcv. by eexists. }
  { exact Hsnap0. }
  { by rewrite Hw0, Hh0. }
  rewrite Hw0, Hh0 in *.
  eexists s0, s, _. split; [done |]. split; [done |]. split; [done |].
  split; [done |]. split; [exact Hsnap |]. split; [done |].
  clear Hsnap Hrun. induction (ticks es) as [|n [IHs IHb]]; simpl.
  - split; [done | apply binary_seed].
  - split; [by apply shape_next_grid | by apply binary_next_grid].
Qed.

Lemma run_mounted_witness :
  ∃ s0 s G, mount 12 all_alive = Some s0 ∧
    run s0 [Tick; Resize 40; Tick] = Some s ∧
    st_width s = ceil_div 12 cellSize ∧ st_height s = 20 ∧
    snapshot (st_mem s) (st_grid s) = Some G ∧
    G = Nat.iter (ticks [Tick; Resize 40; Tick])
          (next_grid 20 (ceil_div 12 cellSize))
          (seed 20 (ceil_div 12 cellSize) all_alive) ∧
    shape 20 (ceil_div 12 cellSize) G ∧ binary G.
Proof. apply (run_mounted 12 all_alive [Tick; Resize 40; Tick]). lia. Defined.

(** ** Mirror images *)

Lemma cell_reverse (height width : Z) (N : Grid) (x y : Z) :
  shape height width N → 0 ≤ x < height →
  cell (reverse N) x y = cell N (height - 1 - x) y.
Proof.
  intros [Hh _] Hx. unfold cell.
  destruct (decide (0 ≤ x ∧ 0 ≤ y)) as [[_ Hy]|Hn].
  - rewrite decide_True by lia.
    rewrite reverse_lookup by lia. do 2 f_equal. lia.
  - rewrite decide_False by lia. done.
Qed.

Lemma shape_reverse (height width : Z) (N : Grid) :
  shape height width N → shape height width (reverse N).
Proof.
  intros [Hh Hw]. split; [by rewrite length_reverse |].
  by apply Forall_reverse.
Qed.

Lemma contribution_reverse (height width : Z) (G : Grid) (a b : Z) :
  shape height width G →
  contribution height width (reverse G) (a, b) =
  contribution height width G (height - 1 - a, b).
Proof.
  intros Hs. unfold contribution.
  destruct (decide (in_bounds height width (a, b))) as [[Ha Hb]|Hn].
  - simpl in Ha, Hb.
    rewrite decide_True by (unfold in_bounds; simpl; lia).
    unfold state_of. simpl. by rewrite (cell_reverse height width).
  - rewrite decide_False; [done |].
    unfold in_bounds in *. simpl in *. lia.
Qed.

Lemma next_grid_reverse (height width : Z) (G : Grid) :
  shape height width G →
  next_grid height width (reverse G) = reverse (next_grid height width G).
Proof.
  intros Hs. symmetry. apply grid_eq_mk.
  { by apply shape_reverse, shape_next_grid. }
  intros x y Hx Hy.
  rewrite (cell_reverse height width) by (by apply shape_next_grid || done).
  unfold next_grid. rewrite cell_mk_grid by lia. f_equal.
  unfold next_cell. rewrite !countLiveNeighbors_expand.
  rewrite !(contribution_reverse height width) by done.
  unfold state_of at 2. simpl. rewrite (cell_reverse height width) by done.
  fold (state_of G (height - 1 - x, y)). f_equal.
  replace (height - 1 - (x - 1)) with (height - 1 - x + 1) by lia.
  replace (height - 1 - (x + 1)) with (height - 1 - x - 1) by lia.
  lia.
Qed.

(** X9: [update] commutes with turning the grid upside down: the next
    generation of the mirror image (rows in reverse order) is the mirror
    image of the next generation. *)
Theorem update_reverse (height width : Z) (h1 h2 : heap) (g1 g2 : loc)
    (G : Grid) :
  shape height width G →
  snapshot h1 g1 = Some G → snapshot h2 g2 = Some (reverse G) →
  ∃ g1' h1' g2' h2' G',
    update height width g1 h1 = Some (g1', h1') ∧
    update height width g2 h2 = Some (g2', h2') ∧
    snapshot h1' g1' = Some G' ∧ snapshot h2' g2' = Some (reverse G').
Proof.
  intros Hs Hs1 Hs2.
  destruct (update_snapshot _ _ _ _ _ Hs1 Hs)
    as (g1' & h1' & Hrun1 & _ & _ & Hsnap1).
  destruct (update_snapshot _ _ _ _ _ Hs2 (shape_reverse _ _ _ Hs))
    as (g2' & h2' & Hrun2 & _ & _ & Hsnap2).
  exists g1', h1', g2', h2', (next_grid height width G).
  split; [done |]. split; [done |]. split; [done |].
  by rewrite <- next_grid_reverse.
Qed.

Lemma update_reverse_witness :
  ∃ g1' h1' g2' h2' G',
    update 3 3 (store_of [[1; 1; 0]; [1; 0; 0]; [0; 0; 0]]).1
               (store_of [[1; 1; 0]; [1; 0; 0]; [0; 0; 0]]).2
      = Some (g1', h1') ∧
    update 3 3 (store_of [[0; 0; 0]; [1; 0; 0]; [1; 1; 0]]).1
               (store_of [[0; 0; 0]; [1; 0; 0]; [1; 1; 0]]).2
      = Some (g2', h2') ∧
    snapshot h1' g1' = Some G' ∧ snapshot h2' g2' = Some (reverse G').
Proof.
  apply (update_reverse 3 3
           (store_of [[1; 1; 0]; [1; 0; 0]; [0; 0; 0]]).2
           (store_of [[0; 0; 0]; [1; 0; 0]; [1; 1; 0]]).2
           (store_of [[1; 1; 0]; [1; 0; 0]; [0; 0; 0]]).1
           (store_of [[0; 0; 0]; [1; 0; 0]; [1; 1; 0]]).1
           [[1; 1; 0]; [1; 0; 0]; [0; 0; 0]]).
  - shape_tac.
  - vm_compute. reflexivity.
  - vm_compute. reflexivity.
Defined.

(** X8: a resize and a tick commute on the grid: whichever comes first,
    the grid afterwards is the next generation and the same squares are
    drawn; the resize shows only in the rectangle the tick clears (the
    new canvas size when the resize came first) and in the canvas size. *)
Theorem resize_tick_commute (s : state) (log : list cmd) (cv : canvas_t)
    (G : Grid) (innerWidth : Z) :
  st_ctx s = Some log → st_canvas s = Some cv →
  snapshot (st_mem s) (st_grid s) = Some G →
  shape (st_height s) (st_width s) G →
  ∃ s1 s2,
    run s [Resize innerWidth; Tick] = Some s1 ∧
    run s [Tick; Resize innerWidth] = Some s2 ∧
    st_ctx s1 = Some (log ++ ClearRect 0 0 innerWidth 100
                          :: render (st_height s) (st_width s) G) ∧
    st_ctx s2 = Some (log ++ ClearRect 0 0 (cv_width cv) (cv_height cv)
                          :: render (st_height s) (st_width s) G) ∧
    snapshot (st_mem s1) (st_grid s1) =
      Some (next_grid (st_height s) (st_width s) G) ∧
    snapshot (st_mem s2) (st_grid s2) =
      Some (next_grid (st_height s) (st_width s) G) ∧
    st_canvas s1 = Some {| cv_width := innerWidth; cv_height := 100 |} ∧
    st_canvas s2 = Some {| cv_width := innerWidth; cv_height := 100 |} ∧
    st_width s1 = st_width s ∧ st_width s2 = st_width s ∧
    st_height s1 = st_height s ∧ st_height s2 = st_height s.
Proof.
  intros Hctx Hcv Hsnap Hshape.
  destruct (draw_available s log cv G Hctx Hcv Hsnap Hshape)
    as (g2 & h2 & Hsnap2 & Hdraw2).
  destruct (draw_available (updateCanvasSize innerWidth s) log
              {| cv_width := innerWidth; cv_height := 100 |} G)
    as (g1 & h1 & Hsnap1 & Hdraw1);
    try (unfold updateCanvasSize; rewrite Hcv; done).
  eexists _, _.
  split; [simpl; rewrite Hdraw1; reflexivity |].
  split; [simpl; rewrite Hdraw2; reflexivity |].
  unfold updateCanvasSize in *. rewrite Hcv in *. simpl in *.
  by repeat split.
Qed.

Lemma resize_tick_commute_witness :
  ∃ s1 s2,
    run column3_state [Resize 40; Tick] = Some s1 ∧
    run column3_state [Tick; Resize 40] = Some s2 ∧
    st_ctx s1 = Some ([] ++ ClearRect 0 0 40 100 :: render 3 3 column3) ∧
    st_ctx s2 = Some ([] ++ ClearRect 0 0 15 15 :: render 3 3 column3) ∧
    snapshot (st_mem s1) (st_grid s1) = Some (next_grid 3 3 column3) ∧
    snapshot (st_mem s2) (st_grid s2) = Some (next_grid 3 3 column3) ∧
    st_canvas s1 = Some {| cv_width := 40; cv_height := 100 |} ∧
    st_canvas s2 = Some {| cv_width := 40; cv_height := 100 |} ∧
    st_width s1 = 3 ∧ st_width s2 = 3 ∧
    st_height s1 = 3 ∧ st_height s2 = 3.
Proof.
  apply (resize_tick_commute column3_state []
           {| cv_width := 15; cv_height := 15 |} column3 40).
  - reflexivity.
  - reflexivity.
  - vm_compute. reflexivity.
  - shape_tac.
Defined.

(** * Properties of the bouncing numbers *)

Lemma bounce_x (sz : Bounce.size) (p : Bounce.pos) :
  1 ≤ Bounce.width sz →
  0 ≤ Bounce.x (Bounce.bounce sz p) < Bounce.width sz.
Proof.
  intros Hw. unfold Bounce.bounce. repeat case_bool_decide; simpl in *; lia.
Qed.

Lemma bounce_y (sz : Bounce.size) (p : Bounce.pos) :
  1 ≤ Bounce.height sz →
  0 ≤ Bounce.y (Bounce.bounce sz p) < Bounce.height sz.
Proof.
  intros Hh. unfold Bounce.bounce. repeat case_bool_decide; simpl in *; lia.
Qed.

Lemma bounce_y_outside (sz : Bounce.size) (p : Bounce.pos) :
  Bounce.height sz ≤ 0 → Bounce.y (Bounce.bounce sz p) < 0.
Proof.
  intros Hh. unfold Bounce.bounce. repeat case_bool_decide; simpl in *; lia.
Qed.

Lemma bounce_unit_speed (sz : Bounce.size) (p : Bounce.pos) :
  Bounce.unit_speed p → Bounce.unit_speed (Bounce.bounce sz p).
Proof.
  intros [Hx Hy]. unfold Bounce.unit_speed, Bounce.bounce.
  repeat case_bool_decide; simpl in *; lia.
Qed.

Lemma updatePositions_frame (sz : Bounce.size) (ps : list Bounce.pos) :
  1 ≤ Bounce.width sz → 1 ≤ Bounce.height sz →
  Forall (Bounce.in_frame sz) (Bounce.updatePositions sz ps).
Proof.
  intros Hw Hh. unfold Bounce.updatePositions.
  apply Forall_fmap, Forall_forall. intros p _.
  split; [by apply bounce_x | by apply bounce_y].
Qed.

(** X10: [updatePositions] brings every number into the frame, wherever
    it was before (for instance outside after the frame shrank): if the
    frame has at least one column and one row, every position afterwards
    has [0 <= x < width] and [0 <= y < height]; speeds of +-1 stay +-1. *)
Theorem updatePositions_in_frame (sz : Bounce.size) (ps : list Bounce.pos) :
  1 ≤ Bounce.width sz → 1 ≤ Bounce.height sz →
  Forall (Bounce.in_frame sz) (Bounce.updatePositions sz ps) ∧
  length (Bounce.updatePositions sz ps) = length ps ∧
  (Forall Bounce.unit_speed ps →
   Forall Bounce.unit_speed (Bounce.updatePositions sz ps)).
Proof.
  intros Hw Hh. unfold Bounce.updatePositions. split; [| split].
  - by apply updatePositions_frame.
  - apply length_fmap.
  - intros Hs. apply Forall_fmap. eapply Forall_impl; [exact Hs |].
    intros p. apply bounce_unit_speed.
Qed.

Lemma updatePositions_in_frame_witness :
  Forall (Bounce.in_frame {| Bounce.width := 5; Bounce.height := 4 |})
    (Bounce.updatePositions {| Bounce.width := 5; Bounce.height := 4 |}
       [{| Bounce.x := 40; Bounce.y := -7; Bounce.dx := 1;
           Bounce.dy := -1 |}]) ∧
  length (Bounce.updatePositions {| Bounce.width := 5; Bounce.height := 4 |}
       [{| Bounce.x := 40; Bounce.y := -7; Bounce.dx := 1; Bounce.dy := -1 |}])
  = length
       [{| Bounce.x := 40; Bounce.y := -7; Bounce.dx := 1; Bounce.dy := -1 |}] ∧
  (Forall Bounce.unit_speed
     [{| Bounce.x := 40; Bounce.y := -7; Bounce.dx := 1; Bounce.dy := -1 |}] →
   Forall Bounce.unit_speed
     (Bounce.updatePositions {| Bounce.width := 5; Bounce.height := 4 |}
        [{| Bounce.x := 40; Bounce.y := -7; Bounce.dx := 1;
            Bounce.dy := -1 |}])).
Proof.
  apply (updatePositions_in_frame {| Bounce.width := 5; Bounce.height := 4 |}
           [{| Bounce.x := 40; Bounce.y := -7; Bounce.dx := 1;
               Bounce.dy := -1 |}]); simpl; lia.
Defined.

(** ** The frame *)

Lemma empty_frame_Some (sz : Bounce.size) :
  Bounce.fits sz →
  ∃ f, Bounce.empty_frame sz = Some f ∧ Bounce.frame_shape sz f ∧
    ∀ r c, 0 ≤ r < Bounce.height sz → 0 ≤ c < Bounce.width sz →
      Bounce.cell_at f r c = Some " "%string.
Proof.
  intros [Hw Hh]. unfold Bounce.empty_frame.
  rewrite decide_True by lia.
  exists ((λ _ : Z, replicate (Z.to_nat (Bounce.width sz)) " "%string)
            <$> seqZ 0 (Bounce.height sz)).
  split; [| split].
  - apply mapM_Some. apply Forall2_fmap_r, Forall_Forall2_diag, Forall_forall.
    intros i _. by rewrite decide_True by lia.
  - split.
    + rewrite length_fmap, length_seqZ. lia.
    + apply Forall_fmap, Forall_forall. intros i _. simpl.
      rewrite length_replicate. lia.
  - intros r c Hr Hc. unfold Bounce.cell_at. rewrite decide_True by lia.
    rewrite list_lookup_fmap, lookup_seqZ_lt by lia. simpl.
    apply lookup_replicate. split; [done | lia].
Qed.

Lemma empty_frame_None (sz : Bounce.size) :
  Bounce.height sz < 0 ∨ (1 ≤ Bounce.height sz ∧ Bounce.width sz < 0) →
  Bounce.empty_frame sz = None.
Proof.
  intros H. unfold Bounce.empty_frame.
  destruct (decide (0 ≤ Bounce.height sz)) as [Hh|]; [| done].
  destruct H as [H|[H1 Hw]]; [lia |].
  rewrite seqZ_cons by lia. simpl.
  by rewrite decide_False by lia.
Qed.

Lemma empty_frame_flat (sz : Bounce.size) :
  Bounce.height sz = 0 → Bounce.empty_frame sz = Some [].
Proof.
  intros H. unfold Bounce.empty_frame. rewrite decide_True by lia.
  by rewrite seqZ_nil by lia.
Qed.

Lemma set_frame_length (f f' : Bounce.frame) (r c : Z) (s : string) :
  Bounce.set_frame f r c s = Some f' → length f' = length f.
Proof.
  unfold Bounce.set_frame. destruct (decide (0 ≤ r)); [| done].
  destruct (f !! Z.to_nat r); [| done]. simpl.
  intros [= <-]. apply length_insert.
Qed.

Lemma set_frame_is_Some (f : Bounce.frame) (r c : Z) (s : string) :
  is_Some (Bounce.set_frame f r c s) ↔ 0 ≤ r < Z.of_nat (length f).
Proof.
  unfold Bounce.set_frame. destruct (decide (0 ≤ r)) as [Hr|Hr].
  - destruct (f !! Z.to_nat r) as [row|] eqn:E; simpl.
    + apply lookup_lt_Some in E. split; [lia | by eexists].
    + apply lookup_ge_None in E. split; [by intros [? [=]] | lia].
  - split; [by intros [? [=]] | lia].
Qed.

(** [draw]'s loop over the positions fails exactly when some position
    names a row the frame does not have. *)
Lemma draw_numbers_is_Some (ps : list Bounce.pos) (f : Bounce.frame)
    (index : nat) :
  is_Some (Bounce.draw_numbers f index ps) ↔
  Forall (λ p, 0 ≤ Bounce.y p < Z.of_nat (length f)) ps.
Proof.
  revert f index. induction ps as [|p ps IH]; intros f index; simpl.
  - split; [constructor | by eexists].
  - rewrite Forall_cons.
    destruct (Bounce.set_frame f (Bounce.y p) (Bounce.x p)
                (pretty (index + 1)%nat)) as [f'|] eqn:E; simpl.
    + rewrite IH, (set_frame_length _ _ _ _ _ E).
      assert (is_Some (Bounce.set_frame f (Bounce.y p) (Bounce.x p)
                         (pretty (index + 1)%nat))) as Hs by by eexists.
      apply set_frame_is_Some in Hs. tauto.
    + split; [by intros [? [=]] |]. intros [Hy _].
      apply (set_frame_is_Some f _ (Bounce.x p) (pretty (index + 1)%nat)) in Hy.
      rewrite E in Hy. by destruct Hy.
Qed.

Lemma draw_is_Some (sz : Bounce.size) (ps : list Bounce.pos) :
  ps ≠ [] →
  is_Some (Bounce.draw sz (Bounce.updatePositions sz ps)) ↔ Bounce.fits sz.
Proof.
  intros Hne. unfold Bounce.draw, Bounce.fits. split.
  - intros Hs.
    destruct (decide (Bounce.height sz < 0 ∨
                      (1 ≤ Bounce.height sz ∧ Bounce.width sz < 0)))
      as [Hbad|Hok].
    { rewrite (empty_frame_None sz Hbad) in Hs. by destruct Hs. }
    destruct (decide (Bounce.height sz = 0)) as [H0|H0]; [| lia].
    rewrite (empty_frame_flat sz H0) in Hs. simpl in Hs.
    destruct ps as [|p ps]; [done |]. simpl in Hs.
    unfold Bounce.set_frame in Hs.
    pose proof (bounce_y_outside sz p ltac:(lia)).
    rewrite decide_False in Hs by lia. by destruct Hs.
  - intros Hfit.
    destruct (empty_frame_Some sz Hfit) as (f & -> & [Hlen _] & _). simpl.
    assert (is_Some (Bounce.draw_numbers f 0 (Bounce.updatePositions sz ps)))
      as [f' ->]; [| by eexists].
    apply draw_numbers_is_Some. unfold Bounce.updatePositions.
    apply Forall_fmap, Forall_forall. intros p _. simpl.
    rewrite Hlen. apply bounce_y. destruct Hfit. lia.
Qed.

(** X11: a tick of the bouncing numbers runs to its end exactly when the
    frame has no negative width and at least one row: with a negative
    height or width [Array] throws, and with no row the first number is
    written into a missing row. *)
Theorem tick_succeeds_iff (s : Bounce.state) :
  Bounce.st_positions s ≠ [] →
  is_Some (Bounce.step s Bounce.Tick) ↔
  0 ≤ Bounce.width (Bounce.st_size s) ∧ 1 ≤ Bounce.height (Bounce.st_size s).
Proof.
  intros Hne.
  change (is_Some (Bounce.step s Bounce.Tick) ↔ Bounce.fits (Bounce.st_size s)).
  rewrite <- (draw_is_Some (Bounce.st_size s) (Bounce.st_positions s) Hne).
  simpl.
  destruct (Bounce.draw (Bounce.st_size s)
              (Bounce.updatePositions (Bounce.st_size s)
                 (Bounce.st_positions s))) as [t|]; simpl.
  - split; intros _; by eexists.
  - split; intros [? [=]].
Qed.

Lemma tick_succeeds_iff_witness :
  is_Some (Bounce.step
             (Bounce.mount {| Bounce.parent := None; Bounce.innerWidth := 20;
                              Bounce.innerHeight := 30 |}) Bounce.Tick) ↔
  0 ≤ Bounce.width (Bounce.st_size
        (Bounce.mount {| Bounce.parent := None; Bounce.innerWidth := 20;
                         Bounce.innerHeight := 30 |})) ∧
  1 ≤ Bounce.height (Bounce.st_size
        (Bounce.mount {| Bounce.parent := None; Bounce.innerWidth := 20;
                         Bounce.innerHeight := 30 |})).
Proof.
  apply (tick_succeeds_iff
           (Bounce.mount {| Bounce.parent := None; Bounce.innerWidth := 20;
                            Bounce.innerHeight := 30 |})).
  discriminate.
Defined.

Lemma cell_at_insert (sz : Bounce.size) (f : Bounce.frame) (p : Bounce.pos)
    (s : string) :
  Bounce.frame_shape sz f → Bounce.in_frame sz p →
  ∃ f', Bounce.set_frame f (Bounce.y p) (Bounce.x p) s = Some f' ∧
    Bounce.frame_shape sz f' ∧
    ∀ r c, 0 ≤ r → 0 ≤ c →
      Bounce.cell_at f' r c =
      if bool_decide (Bounce.y p = r ∧ Bounce.x p = c) then Some s
      else Bounce.cell_at f r c.
Proof.
  intros [Hlen Hrows] [Hx Hy]. unfold Bounce.set_frame.
  rewrite decide_True by lia.
  destruct (lookup_lt_is_Some_2 f (Z.to_nat (Bounce.y p))) as [row Hrow];
    [lia |].
  rewrite Hrow. simpl. eexists. split; [done |].
  pose proof Hrows as Hrows'. rewrite Forall_lookup in Hrows'.
  pose proof (Hrows' _ _ Hrow) as Hrowlen. simpl in Hrowlen.
  assert (Bounce.set_row row (Bounce.x p) s
          = <[Z.to_nat (Bounce.x p) := s]> row) as Hset.
  { unfold Bounce.set_row. rewrite decide_False by lia.
    by rewrite decide_True by lia. }
  rewrite Hset. split; [split |].
  - by rewrite length_insert.
  - apply Forall_insert; [done |]. simpl. by rewrite length_insert.
  - intros r c Hr Hc. unfold Bounce.cell_at. rewrite decide_True by lia.
    destruct (decide (Z.to_nat r = Z.to_nat (Bounce.y p))) as [Heq|Hne].
    + rewrite Heq, list_lookup_insert_eq by lia. simpl. rewrite Hrow. simpl.
      destruct (decide (Z.to_nat c = Z.to_nat (Bounce.x p))) as [Heq'|Hne'].
      * rewrite Heq', list_lookup_insert_eq by lia.
        by rewrite bool_decide_eq_true_2 by lia.
      * rewrite list_lookup_insert_ne by lia.
        rewrite bool_decide_eq_false_2 by lia.
        destruct (decide (0 ≤ r ∧ 0 ≤ c)); [done | lia].
    + rewrite list_lookup_insert_ne by lia.
      rewrite bool_decide_eq_false_2 by lia.
      destruct (decide (0 ≤ r ∧ 0 ≤ c)); [done | lia].
Qed.

Lemma draw_numbers_shown (sz : Bounce.size) (ps : list Bounce.pos)
    (f : Bounce.frame) (index : nat) :
  Bounce.frame_shape sz f → Forall (Bounce.in_frame sz) ps →
  ∃ f', Bounce.draw_numbers f index ps = Some f' ∧
    Bounce.frame_shape sz f' ∧
    ∀ r c, 0 ≤ r → 0 ≤ c →
      Bounce.cell_at f' r c =
      match Bounce.shown index ps r c with
      | Some k => Some (pretty (k + 1)%nat)
      | None => Bounce.cell_at f r c
      end.
Proof.
  intros Hshape Hps. revert f index Hshape.
  induction Hps as [|p ps Hp _ IH]; intros f index Hshape.
  - exists f. split; [done |]. split; [done |]. done.
  - destruct (cell_at_insert sz f p (pretty (index + 1)%nat) Hshape Hp)
      as (f1 & Hset & Hshape1 & Hcells1).
    destruct (IH f1 (S index) Hshape1) as (f' & Hrun & Hshape' & Hcells').
    exists f'. simpl. rewrite Hset. simpl.
    split; [done |]. split; [done |]. intros r c Hr Hc.
    rewrite (Hcells' r c Hr Hc).
    destruct (Bounce.shown (S index) ps r c); [done |].
    rewrite (Hcells1 r c Hr Hc). by case_bool_decide.
Qed.

(** X12: what a tick puts on display when the frame has at least one
    column and one row: the text is [height] lines of [width] cells
    joined by line feeds, where the cell in row [r], column [c] shows the
    number (index + 1) of the last position at [(c, r)], and a blank when
    no number is there; the positions are the updated ones. *)
Theorem tick_text (s : Bounce.state) :
  1 ≤ Bounce.width (Bounce.st_size s) → 1 ≤ Bounce.height (Bounce.st_size s) →
  ∃ s' f, Bounce.step s Bounce.Tick = Some s' ∧
    Bounce.st_size s' = Bounce.st_size s ∧
    Bounce.st_positions s' =
      Bounce.updatePositions (Bounce.st_size s) (Bounce.st_positions s) ∧
    Bounce.st_text s' =
      String.concat Bounce.newline (String.concat "" <$> f) ∧
    Bounce.frame_shape (Bounce.st_size s) f ∧
    ∀ r c, 0 ≤ r < Bounce.height (Bounce.st_size s) →
      0 ≤ c < Bounce.width (Bounce.st_size s) →
      Bounce.cell_at f r c =
      Some (match Bounce.shown 0 (Bounce.st_positions s') r c with
            | Some k => pretty (k + 1)%nat
            | None => " "%string
            end).
Proof.
  intros Hw Hh. set (sz := Bounce.st_size s) in *.
  destruct (empty_frame_Some sz) as (f0 & Hf0 & Hshape0 & Hcells0);
    [split; lia |].
  pose proof (updatePositions_frame sz (Bounce.st_positions s) Hw Hh) as Hin.
  destruct (draw_numbers_shown sz _ f0 0%nat Hshape0 Hin)
    as (f & Hrun & Hshape & Hcells).
  eexists _, f. simpl. unfold Bounce.draw. fold sz. rewrite Hf0. simpl.
  rewrite Hrun. simpl. split; [done |]. simpl.
  split; [done |]. split; [done |]. split; [done |]. split; [done |].
  intros r c Hr Hc. rewrite Hcells by lia.
  destruct (Bounce.shown 0 _ r c); [done |]. by apply Hcells0.
Qed.

Lemma tick_text_witness :
  ∃ s' f,
    Bounce.step (Bounce.mount {| Bounce.parent := Some (70, 50);
                                 Bounce.innerWidth := 800;
                                 Bounce.innerHeight := 600 |}) Bounce.Tick
      = Some s' ∧
    Bounce.st_size s' = {| Bounce.width := 5; Bounce.height := 4 |} ∧
    Bounce.st_positions s' =
      Bounce.updatePositions {| Bounce.width := 5; Bounce.height := 4 |}
        (Bounce.initial_positions {| Bounce.width := 5; Bounce.height := 4 |}) ∧
    Bounce.st_text s' =
      String.concat Bounce.newline (String.concat "" <$> f) ∧
    Bounce.frame_shape {| Bounce.width := 5; Bounce.height := 4 |} f ∧
    ∀ r c, 0 ≤ r < 4 → 0 ≤ c < 5 →
      Bounce.cell_at f r c =
      Some (match Bounce.shown 0 (Bounce.st_positions s') r c with
            | Some k => pretty (k + 1)%nat
            | None => " "%string
            end).
Proof.
  apply (tick_text (Bounce.mount {| Bounce.parent := Some (70, 50);
                                    Bounce.innerWidth := 800;
                                    Bounce.innerHeight := 600 |}));
    vm_compute; discriminate.
Defined.

(** ** Running the bouncing numbers *)

Lemma updateSize_fits (v : Bounce.viewport) :
  Bounce.fits (Bounce.updateSize v) ↔ Bounce.big_enough v.
Proof.
  unfold Bounce.fits, Bounce.big_enough, Bounce.updateSize. simpl.
  split; intros [H1 H2]; split; Z.div_mod_to_equations; lia.
Qed.

Lemma draw_fits (sz : Bounce.size) (ps : list Bounce.pos) :
  Bounce.fits sz → is_Some (Bounce.draw sz (Bounce.updatePositions sz ps)).
Proof.
  intros Hfit. unfold Bounce.draw.
  destruct (empty_frame_Some sz Hfit) as (f & -> & [Hlen _] & _). simpl.
  assert (is_Some (Bounce.draw_numbers f 0 (Bounce.updatePositions sz ps)))
    as [f' ->]; [| by eexists].
  apply draw_numbers_is_Some. unfold Bounce.updatePositions.
  apply Forall_fmap, Forall_forall. intros p _. simpl.
  rewrite Hlen. apply bounce_y. destruct Hfit. lia.
Qed.

Lemma initial_positions_unit_speed (sz : Bounce.size) :
  Forall Bounce.unit_speed (Bounce.initial_positions sz).
Proof.
  unfold Bounce.initial_positions, Bounce.unit_speed.
  repeat (apply Forall_cons_2; [simpl; auto |]). apply Forall_nil_2.
Qed.

Lemma run_fits (es : list Bounce.event) (s : Bounce.state) :
  Bounce.fits (Bounce.st_size s) → Bounce.resizes_big_enough es →
  Forall Bounce.unit_speed (Bounce.st_positions s) →
  ∃ s', Bounce.run s es = Some s' ∧
    Bounce.fits (Bounce.st_size s') ∧
    length (Bounce.st_positions s') = length (Bounce.st_positions s) ∧
    Forall Bounce.unit_speed (Bounce.st_positions s').
Proof.
  intros Hfit Hes. revert s Hfit.
  induction Hes as [|e es He _ IH]; intros s Hfit Hspeed.
  - exists s. split; [done |]. split; [done |]. split; [done |]. done.
  - destruct e as [|v]; simpl.
    + destruct (draw_fits (Bounce.st_size s) (Bounce.st_positions s) Hfit)
        as [t ->]. simpl.
      edestruct IH as (s' & Hrun & Hfit' & Hlen & Hspeed');
        [| | exists s'; split; [exact Hrun |]].
      * done.
      * simpl. unfold Bounce.updatePositions. apply Forall_fmap.
        eapply Forall_impl; [exact Hspeed |]. intros p.
        apply bounce_unit_speed.
      * simpl in *. unfold Bounce.updatePositions in Hlen.
        rewrite length_fmap in Hlen.
        split; [done |]. split; [done |]. done.
    + edestruct IH as (s' & Hrun & Hfit' & Hlen & Hspeed');
        [| | exists s'; split; [exact Hrun |]].
      * simpl. by apply updateSize_fits.
      * done.
      * split; [done |]. split; [done |]. done.
Qed.

(** X13: in containers of at least 20 by 20 pixels the bouncing numbers
    never fault: mounted in such a container and resized only to such
    containers, every tick of every sequence of ticks and resizes draws
    its frame; there are always three numbers, each moving by one cell
    per tick in each direction. *)
Theorem bounce_run (v : Bounce.viewport) (es : list Bounce.event) :
  Bounce.big_enough v → Bounce.resizes_big_enough es →
  ∃ s, Bounce.run (Bounce.mount v) es = Some s ∧
    0 ≤ Bounce.width (Bounce.st_size s) ∧
    1 ≤ Bounce.height (Bounce.st_size s) ∧
    length (Bounce.st_positions s) = 3%nat ∧
    Forall Bounce.unit_speed (Bounce.st_positions s).
Proof.
  intros Hv Hes.
  destruct (run_fits es (Bounce.mount v)) as (s & Hrun & [Hw Hh] & Hlen & Hsp).
  - simpl. by apply updateSize_fits.
  - done.
  - apply initial_positions_unit_speed.
  - exists s. split; [done |]. split; [done |]. split; [done |].
    split; [done |]. done.
Qed.

Lemma bounce_run_witness :
  ∃ s,
    Bounce.run (Bounce.mount {| Bounce.parent := Some (70, 50);
                                Bounce.innerWidth := 800;
                                Bounce.innerHeight := 600 |})
      [Bounce.Tick;
       Bounce.Resize {| Bounce.parent := Some (0, 0);
                        Bounce.innerWidth := 25; Bounce.innerHeight := 20 |};
       Bounce.Tick] = Some s ∧
    0 ≤ Bounce.width (Bounce.st_size s) ∧
    1 ≤ Bounce.height (Bounce.st_size s) ∧
    length (Bounce.st_positions s) = 3%nat ∧
    Forall Bounce.unit_speed (Bounce.st_positions s).
Proof.
  apply (bounce_run {| Bounce.parent := Some (70, 50);
                       Bounce.innerWidth := 800;
                       Bounce.innerHeight := 600 |}
           [Bounce.Tick;
            Bounce.Resize {| Bounce.parent := Some (0, 0);
                             Bounce.innerWidth := 25;
                             Bounce.innerHeight := 20 |};
            Bounce.Tick]).
  - vm_compute. split; discriminate.
  - repeat constructor; vm_compute; discriminate.
Defined.

(** ** The motion repeats *)











